(** * OLX car-cover scraper: a shallow embedding of [olx_car_cover_scraper.py]

    The script fetches up to [max_pages] result pages, finds the listing
    containers of each page, extracts six text fields per container, keeps
    the records that have a title, and saves the collection as JSON and CSV.

    Modelling choices.
    - A Python [str] is the Rocq string of its UTF-8 bytes; a lone
      surrogate, which a [str] can hold and UTF-8 cannot, is held in the
      three bytes the [surrogatepass] handler gives it.  Whitespace and
      letter case are the Unicode ones of [str.strip], [\s] and [re.I],
      read on those bytes.
    - A parsed page is a tree of [PageElement]s, as BeautifulSoup builds it:
      tags carrying a name, an attribute dictionary and their contents, text
      nodes, and the string nodes that are not text (comments and the
      like).  The searches used by the script ([find], [find_all],
      [get_text(strip=True)]) are written over that tree.
    - Everything the script receives from outside is gathered in [Env]: the
      answer of the HTTP session to a GET, the HTML parser, [urljoin] (which
      may raise), whether a file can be opened for writing, whether a line
      can be printed, and the texts of the exceptions of the libraries.
    - Effects (log lines, requests, sleeps, prints, file writes) are threaded
      through a state monad over [world]. *)

From stdpp Require Import base strings list gmap pretty.
From Stdlib Require Import ZArith Ascii String.

Set Warnings "-register-all".
Local Open Scope Z_scope.
Local Open Scope string_scope.
Local Open Scope list_scope.

(** ** Text *)

Definition bytes (l : list N) : string :=
  fold_right (λ n s, String (ascii_of_N n) s) EmptyString l.

(** The characters [str.isspace] holds to be whitespace, in UTF-8: U+0009 to
    U+000D, U+001C to U+0020, U+0085, U+00A0, U+1680, U+2000 to U+200A,
    U+2028, U+2029, U+202F, U+205F and U+3000. *)
Definition WHITESPACE : list string :=
  map bytes
    [ [0x09]; [0x0A]; [0x0B]; [0x0C]; [0x0D];
      [0x1C]; [0x1D]; [0x1E]; [0x1F]; [0x20];
      [0xC2; 0x85]; [0xC2; 0xA0]; [0xE1; 0x9A; 0x80];
      [0xE2; 0x80; 0x80]; [0xE2; 0x80; 0x81]; [0xE2; 0x80; 0x82];
      [0xE2; 0x80; 0x83]; [0xE2; 0x80; 0x84]; [0xE2; 0x80; 0x85];
      [0xE2; 0x80; 0x86]; [0xE2; 0x80; 0x87]; [0xE2; 0x80; 0x88];
      [0xE2; 0x80; 0x89]; [0xE2; 0x80; 0x8A];
      [0xE2; 0x80; 0xA8]; [0xE2; 0x80; 0xA9]; [0xE2; 0x80; 0xAF];
      [0xE2; 0x81; 0x9F]; [0xE3; 0x80; 0x80] ]%N.

(** What is left of [s] after the prefix [p], when [s] starts with [p]. *)
Fixpoint strip_prefix (p s : string) : option string :=
  match p with
  | EmptyString => Some s
  | String a p' =>
      match s with
      | String b s' => if Ascii.eqb a b then strip_prefix p' s' else None
      | EmptyString => None
      end
  end.

(** What is left of [s] after one of the [alternatives], the first that [s]
    starts with. *)
Fixpoint after_one_of (alternatives : list string) (s : string) : option string :=
  match alternatives with
  | [] => None
  | p :: rest =>
      match strip_prefix p s with
      | Some r => Some r
      | None => after_one_of rest s
      end
  end.

(** What is left of [s] after its first character, when that is a
    whitespace. *)
Definition space_prefix (s : string) : option string :=
  after_one_of WHITESPACE s.

(** [str.lstrip]: whitespace is taken off the front while there is some;
    each step takes at least one byte, so the length of [s] is fuel enough. *)
Fixpoint lstrip_go (fuel : nat) (s : string) : string :=
  match fuel with
  | O => s
  | S fuel' =>
      match space_prefix s with
      | Some rest => lstrip_go fuel' rest
      | None => s
      end
  end.

Definition lstrip (s : string) : string := lstrip_go (String.length s) s.

(** [s] is made of whitespace only ([""] is). *)
Definition all_space (s : string) : bool :=
  match lstrip s with EmptyString => true | String _ _ => false end.

(** [str.rstrip]: the text up to the point from which only whitespace
    follows. *)
Fixpoint rstrip (s : string) : string :=
  if all_space s then EmptyString
  else match s with
       | String a s' => String a (rstrip s')
       | EmptyString => EmptyString
       end.

(** [str.strip] *)
Definition strip (s : string) : string := rstrip (lstrip s).

Definition nonempty (s : string) : bool :=
  match s with EmptyString => false | String _ _ => true end.

(** The maximal runs of characters that are not whitespace ([\S+]), in
    order; [cur] is the run being read. *)
Fixpoint words_go (fuel : nat) (cur s : string) : list string :=
  let flush := if nonempty cur then [cur] else [] in
  match fuel with
  | O => flush
  | S fuel' =>
      match s with
      | EmptyString => flush
      | String a s' =>
          match space_prefix s with
          | Some rest => flush ++ words_go fuel' EmptyString rest
          | None => words_go fuel' (cur +:+ String a EmptyString) s'
          end
      end
  end.

Definition words (s : string) : list string :=
  words_go (String.length s) EmptyString s.

(** *** The pattern of the fallback selector *)

(** The characters that match [i] when case is ignored: [i], [I], U+0130
    and U+0131. *)
Definition I_LIKE : list string := ["i"; "I"; bytes [0xC4; 0xB0]%N; bytes [0xC4; 0xB1]%N].

Definition item_here (s : string) : bool :=
  match after_one_of I_LIKE s with
  | Some s1 =>
      match after_one_of ["t"; "T"] s1 with
      | Some s2 =>
          match after_one_of ["e"; "E"] s2 with
          | Some s3 =>
              match after_one_of ["m"; "M"] s3 with
              | Some _ => true
              | None => false
              end
          | None => false
          end
      | None => false
      end
  | None => false
  end.

(** [re.compile(r'.*item.*', re.I).search]: the text has "item" somewhere,
    in any letter case. *)
Fixpoint item_re (s : string) : bool :=
  item_here s
  || match s with
     | String _ s' => item_re s'
     | EmptyString => false
     end.

(** *** What UTF-8 can hold *)

(** A lone surrogate (U+D800 to U+DFFF): the byte [ED] followed by a byte
    from [A0] to [BF]. *)
Fixpoint has_surrogate (s : string) : bool :=
  match s with
  | String a s' =>
      (N.eqb (N_of_ascii a) 0xED
       && match s' with
          | String b _ => N.leb 0xA0 (N_of_ascii b) && N.leb (N_of_ascii b) 0xBF
          | EmptyString => false
          end)
      || has_surrogate s'
  | EmptyString => false
  end.

(** The text can be written to a file opened with [encoding='utf-8']. *)
Definition encodable (s : string) : bool := negb (has_surrogate s).

(** ** Markup trees *)

(** A string node that [get_text] takes is a [NavigableString] (or a
    [CData]); the others, which it leaves out, are [SpecialString]s:
    comments, declarations, doctypes, processing instructions, and the text
    of [script], [style] and [template] elements. *)
Inductive PageElement :=
| Tag (name : string) (attrs : gmap string string) (contents : list PageElement)
| NavigableString (text : string)
| SpecialString (text : string).

(** All elements below [e] in document order (bs4's [descendants]); the
    element itself is not one of them. *)
Fixpoint descendants (e : PageElement) : list PageElement :=
  match e with
  | Tag _ _ contents => flat_map (λ c, c :: descendants c) contents
  | NavigableString _ | SpecialString _ => []
  end.

(** What an attribute is compared with in a search: a string (equality),
    [True] (the attribute is there), or a compiled regular expression, given
    by its [search] as a predicate. *)
Inductive matcher :=
| MatchString (value : string)
| MatchTrue
| MatchRegex (search : string → bool).

Definition _matches (markup : option string) (m : matcher) : bool :=
  match markup, m with
  | None, _ => false
  | Some _, MatchTrue => true
  | Some s, MatchString value => String.eqb s value
  | Some s, MatchRegex search => search s
  end.

(** [class] is multi-valued: the value is split on whitespace, and the
    search succeeds when one of the classes matches or the classes joined by
    a space do. *)
Definition _matches_class (markup : option string) (m : matcher) : bool :=
  match markup with
  | None => false
  | Some s =>
      let classes := words s in
      existsb (λ c, _matches (Some c) m) classes
      || _matches (Some (String.concat " " classes)) m
  end.

Definition attr_matches (attrs : gmap string string) (f : string * matcher) : bool :=
  if String.eqb (fst f) "class"
  then _matches_class (attrs !! fst f) (snd f)
  else _matches (attrs !! fst f) (snd f).

Definition tag_matches (name : string) (filters : list (string * matcher))
    (e : PageElement) : bool :=
  match e with
  | Tag n attrs _ => String.eqb n name && forallb (attr_matches attrs) filters
  | NavigableString _ | SpecialString _ => false
  end.

Definition find_all (e : PageElement) (name : string)
    (filters : list (string * matcher)) : list PageElement :=
  List.filter (tag_matches name filters) (descendants e).

Definition find (e : PageElement) (name : string)
    (filters : list (string * matcher)) : option PageElement :=
  head (find_all e name filters).

(** *** Text of an element *)

Definition strings_of (e : PageElement) : list string :=
  flat_map (λ d, match d with
                 | NavigableString s => [s]
                 | Tag _ _ _ | SpecialString _ => []
                 end)
           (descendants e).

(** [get_text(strip=True)]: every text node below the element is stripped,
    the ones left empty are dropped, and the rest are joined with no
    separator. *)
Definition get_text_strip (e : PageElement) : string :=
  String.concat "" (List.filter nonempty (map strip (strings_of e))).

(** ** Records

    A record is a Python [dict] from field names to text; the order of its
    keys is the order of insertion, which the CSV writer uses. *)

Abbreviation dict := (list (string * string)).

Fixpoint dict_get (k : string) (d : dict) : option string :=
  match d with
  | [] => None
  | (k', v) :: d' => if String.eqb k' k then Some v else dict_get k d'
  end.

(** [d[k] = v]: replaces the value of an existing key in place, else adds
    the key at the end. *)
Fixpoint dict_set (k v : string) (d : dict) : dict :=
  match d with
  | [] => [(k, v)]
  | (k', v') :: d' =>
      if String.eqb k' k then (k, v) :: d' else (k', v') :: dict_set k v d'
  end.

Definition keys (d : dict) : list string := map fst d.

(** [d[k]] where the key is known to be there: every record built by
    [parse_listing] has the six keys (see [record_of_shape]), so the
    default is never what is read. *)
Definition subscript (d : dict) (k : string) : string :=
  default "" (dict_get k d).

Definition NA : string := "N/A".

Definition FIELDS : list string :=
  ["title"; "price"; "location"; "link"; "date"; "description"].

(** ** The outside world and the effects of a run *)

Inductive level := INFO | WARNING | ERROR.

Inductive json :=
| JString (s : string)
| JObject (members : list (string * json))
| JArray (items : list json).

(** What a file holds after a save: a JSON document; the text of a JSON
    array of objects cut short (the objects of [records] in full, then an
    object begun with [members], then, when [key] is given, that key and
    its colon); or the rows of a CSV table (the header row first). *)
Inductive file_data :=
| JsonText (doc : json)
| JsonCut (records : list dict) (members : dict) (key : option string)
| CsvText (rows : list (list string)).

Inductive event :=
| Log (lvl : level) (msg : string)
| HttpGet (url : string) (timeout : Z)
| ParseHtml (content : string)
| Sleep (seconds : Z)
| Print (line : string)
| WriteFile (filename : string).

Record world := World {
  files : gmap string file_data;
  trace : list event      (* oldest event first *)
}.

(** The answer of [session.get] followed by [raise_for_status]: the payload,
    or a [RequestException] with its text. *)
Inductive Response :=
| Content (payload : string)
| RequestException (e : string).

(** The outcome of [urljoin]: the address, or a [ValueError] with its
    text. *)
Inductive Joined :=
| Url (address : string)
| ValueError (e : string).

(** [session_get] answers by address: a run asks for each address once.
    [open_w] gives the error text when a file cannot be opened for writing.
    [print_error] gives the error text when printing a line raises (the
    encoding of the standard output is not the script's).  [encode_error]
    is the text of the [UnicodeEncodeError] raised when a chunk made of the
    given texts is written to a UTF-8 file, and [repr_set] the text
    [", ".join(repr(x) for x in s)] for a set [s] of keys. *)
Record Env := {
  session_get : string → Response;
  html_parser : string → PageElement;
  urljoin : string → string → Joined;
  open_w : string → option string;
  print_error : string → option string;
  encode_error : list string → string;
  repr_set : list string → string
}.

Definition M (A : Type) : Type := world → A * world.

Definition ret {A} (a : A) : M A := λ w, (a, w).

Definition bind {A B} (m : M A) (k : A → M B) : M B :=
  λ w, let (a, w') := m w in k a w'.

Declare Scope m_scope.
Delimit Scope m_scope with M.
Notation "x <- m ;; k" := (bind m (λ x, k))
  (at level 100, m at next level, right associativity) : m_scope.
Notation "m ;; k" := (bind m (λ _, k))
  (at level 100, right associativity) : m_scope.
Local Open Scope m_scope.

Definition emit (e : event) : M unit :=
  λ w, (tt, World (files w) (trace w ++ [e])).

Definition log (lvl : level) (msg : string) : M unit := emit (Log lvl msg).

Definition write (filename : string) (data : file_data) : M unit :=
  λ w, (tt, World (<[filename := data]> (files w)) (trace w ++ [WriteFile filename])).

Definition base_url : string := "https://www.olx.in".
Definition search_url : string := "https://www.olx.in/items/q-car-cover".

(** [range(a, b)] *)
Definition range (a b : Z) : list Z := seqZ a (b - a).

(** The loop body ends an iteration ([continue], or falling off its end) or
    the whole loop ([break]). *)
Inductive flow := Next | Break.

Section Scraper.
Variable env : Env.

Definition get_page_content (url : string) : M (option string) :=
  emit (HttpGet url 10) ;;
  match session_get env url with
  | Content payload => ret (Some payload)
  | RequestException e =>
      log ERROR ("Error fetching " +:+ url +:+ ": " +:+ e) ;;
      ret None
  end.

Definition BeautifulSoup (content : string) : M PageElement :=
  emit (ParseHtml content) ;;
  ret (html_parser env content).

(** One field of a listing: the stripped text of the first [span] below the
    element that carries the marker, or the sentinel. *)
Definition text_field (listing_element : PageElement) (marker : string) : string :=
  match find listing_element "span" [("data-aut-id", MatchString marker)] with
  | Some elem => get_text_strip elem
  | None => NA
  end.

Definition href (e : PageElement) : string :=
  match e with
  | Tag _ attrs _ => default "" (attrs !! "href")
  | NavigableString _ | SpecialString _ => ""
  end.

(** The link of a listing: the [href] of the first anchor below the element
    that has one, joined to the base address, or the sentinel; [urljoin]
    may raise. *)
Definition link_field (listing_element : PageElement) : Joined :=
  match find listing_element "a" [("href", MatchTrue)] with
  | Some link_elem => urljoin env base_url (href link_elem)
  | None => Url NA
  end.

(** [parse_listing].  Whatever the body raises is caught, logged, and the
    result is [None]: the [ValueError] of [urljoin], and for a string node,
    which has no [find] of that kind, the [TypeError] of [str.find]. *)
Definition parse_listing (listing_element : PageElement) : M (option dict) :=
  match listing_element with
  | Tag _ _ _ =>
      let listing_data := [] in
      let listing_data :=
        dict_set "title" (text_field listing_element "itemTitle") listing_data in
      let listing_data :=
        dict_set "price" (text_field listing_element "itemPrice") listing_data in
      let listing_data :=
        dict_set "location" (text_field listing_element "item-location") listing_data in
      match link_field listing_element with
      | Url link =>
          let listing_data := dict_set "link" link listing_data in
          let listing_data :=
            dict_set "date" (text_field listing_element "itemDate") listing_data in
          let listing_data :=
            dict_set "description" (text_field listing_element "itemDescription")
                     listing_data in
          ret (Some listing_data)
      | ValueError e =>
          log ERROR ("Error parsing listing: " +:+ e) ;;
          ret None
      end
  | NavigableString _ | SpecialString _ =>
      log ERROR ("Error parsing listing: "
                 +:+ "slice indices must be integers or None or have an __index__ method") ;;
      ret None
  end.

(** [parsed_listing and parsed_listing['title'] != 'N/A']: [None] and the
    empty dictionary are false. *)
Definition keep (parsed_listing : option dict) : bool :=
  match parsed_listing with
  | Some ((_ :: _) as d) => negb (String.eqb (subscript d "title") NA)
  | Some [] | None => false
  end.

(** The inner loop: [for listing in listings: ...]. *)
Fixpoint parse_all (listings : list PageElement) (all_listings : list dict)
    : M (list dict) :=
  match listings with
  | [] => ret all_listings
  | listing :: rest =>
      parsed_listing <- parse_listing listing ;;
      match parsed_listing with
      | Some d =>
          if keep parsed_listing
          then parse_all rest (all_listings ++ [d])
          else parse_all rest all_listings
      | None => parse_all rest all_listings
      end
  end.

Definition page_url (page : Z) : string :=
  if Z.eqb page 1 then search_url else search_url +:+ "?page=" +:+ pretty page.

(** The two discovery strategies: the [itemBox] containers, and the [div]s
    whose class has "item" in it, tried when the first finds nothing. *)
Definition primary (soup : PageElement) : list PageElement :=
  find_all soup "div" [("data-aut-id", MatchString "itemBox")].

Definition fallback (soup : PageElement) : list PageElement :=
  find_all soup "div" [("class", MatchRegex item_re)].

Definition discover (soup : PageElement) : list PageElement :=
  match primary soup with
  | [] => fallback soup
  | listings => listings
  end.

(** The body of the page loop, after the fetch. *)
Definition process_page (page : Z) (content : option string)
    (all_listings : list dict) : M (flow * list dict) :=
  match content with
  | Some (String _ _ as content) =>
      soup <- BeautifulSoup content ;;
      let listings := discover soup in
      match listings with
      | [] =>
          log WARNING ("No listings found on page " +:+ pretty page) ;;
          ret (Break, all_listings)
      | _ :: _ =>
          log INFO ("Found " +:+ pretty (List.length listings)
                    +:+ " listings on page " +:+ pretty page) ;;
          all_listings <- parse_all listings all_listings ;;
          emit (Sleep 2) ;;
          ret (Next, all_listings)
      end
  | Some EmptyString | None =>
      (* [if not content]: no answer, or an empty payload *)
      log WARNING ("Failed to fetch page " +:+ pretty page) ;;
      ret (Next, all_listings)
  end.

Definition scrape_page (page : Z) (all_listings : list dict) : M (flow * list dict) :=
  log INFO ("Scraping page " +:+ pretty page +:+ "...") ;;
  content <- get_page_content (page_url page) ;;
  process_page page content all_listings.

Fixpoint scrape_pages (pages : list Z) (all_listings : list dict) : M (list dict) :=
  match pages with
  | [] => ret all_listings
  | page :: rest =>
      r <- scrape_page page all_listings ;;
      match r with
      | (Next, all_listings) => scrape_pages rest all_listings
      | (Break, all_listings) => ret all_listings
      end
  end.

Definition scrape_listings (max_pages : Z) : M (list dict) :=
  scrape_pages (range 1 (max_pages + 1)) [].

(** ** Saving the collection *)

(** [json.dump(listings, ...)]: an array with one object per record, the
    members in key order, every value a JSON string. *)
Definition json_of_record (d : dict) : json :=
  JObject (map (λ kv, (fst kv, JString (snd kv))) d).

Definition json_dump (listings : list dict) : json :=
  JArray (map json_of_record listings).

(** The document is written chunk by chunk, each key and each value a chunk
    of its own.  A chunk that cannot be encoded raises when it is written:
    what was written before it stays in the file.  [cut_members] finds the
    first such chunk of an object: the members written in full before it,
    the key written before it when it is a value, and its text. *)
Fixpoint cut_members (d written : dict) : option (dict * option string * string) :=
  match d with
  | [] => None
  | (k, v) :: d' =>
      if negb (encodable k) then Some (written, None, k)
      else if negb (encodable v) then Some (written, Some k, v)
      else cut_members d' (written ++ [(k, v)])
  end.

Fixpoint cut_records (listings written : list dict)
    : option (list dict * dict * option string * string) :=
  match listings with
  | [] => None
  | d :: rest =>
      match cut_members d [] with
      | Some (members, key, text) => Some (written, members, key, text)
      | None => cut_records rest (written ++ [d])
      end
  end.

Definition save_to_json (listings : list dict) (filename : string) : M unit :=
  match open_w env filename with
  | None =>
      match cut_records listings [] with
      | None =>
          write filename (JsonText (json_dump listings)) ;;
          log INFO ("Saved " +:+ pretty (List.length listings)
                    +:+ " listings to " +:+ filename)
      | Some (records, members, key, text) =>
          write filename (JsonCut records members key) ;;
          log ERROR ("Error saving to JSON: " +:+ encode_error env [text])
      end
  | Some e => log ERROR ("Error saving to JSON: " +:+ e)
  end.

(** [csv.DictWriter._dict_to_list]: a row that has a key outside the field
    names raises [ValueError]; otherwise the values are listed in the order
    of the field names, a missing one as the empty string. *)
Definition _dict_to_list (fieldnames : list string) (rowdict : dict)
    : string + list string :=
  match List.filter (λ k, negb (existsb (String.eqb k) fieldnames)) (keys rowdict) with
  | [] => inr (map (λ key, default "" (dict_get key rowdict)) fieldnames)
  | wrong_fields =>
      inl ("dict contains fields not in fieldnames: " +:+ repr_set env wrong_fields)
  end.

(** [writerow]: the row is written as one line, which raises when a cell
    cannot be encoded. *)
Definition writerow (row : list string) : string + list string :=
  if forallb encodable row then inr row else inl (encode_error env row).

(** [writerows]: rows are written one after the other; at the first row
    that raises, the rows before it are already in the file. *)
Fixpoint writerows (fieldnames : list string) (rowdicts : list dict)
    : list (list string) * option string :=
  match rowdicts with
  | [] => ([], None)
  | rowdict :: rest =>
      match _dict_to_list fieldnames rowdict with
      | inl e => ([], Some e)
      | inr row =>
          match writerow row with
          | inl e => ([], Some e)
          | inr row =>
              let (rows, err) := writerows fieldnames rest in (row :: rows, err)
          end
      end
  end.

Definition save_to_csv (listings : list dict) (filename : string) : M unit :=
  match listings with
  | [] => log WARNING "No listings to save"
  | first :: _ =>
      let fieldnames := keys first in
      match open_w env filename with
      | None =>
          match writerow fieldnames with   (* [writeheader] *)
          | inl e =>
              write filename (CsvText []) ;;
              log ERROR ("Error saving to CSV: " +:+ e)
          | inr header =>
              let (rows, err) := writerows fieldnames listings in
              write filename (CsvText (header :: rows)) ;;
              match err with
              | None =>
                  log INFO ("Saved " +:+ pretty (List.length listings)
                            +:+ " listings to " +:+ filename)
              | Some e => log ERROR ("Error saving to CSV: " +:+ e)
              end
          end
      | Some e => log ERROR ("Error saving to CSV: " +:+ e)
      end
  end.

(** ** The entry point *)

Definition nl : string := String "010"%char EmptyString.

(** The calls of [print] one after the other; the first that raises ends
    them, and its error is what is returned. *)
Fixpoint print_all (lines : list string) : M (option string) :=
  match lines with
  | [] => ret None
  | line :: rest =>
      match print_error env line with
      | None => emit (Print line) ;; print_all rest
      | Some e => ret (Some e)
      end
  end.

Definition summary_lines (listings : list dict) : list string :=
  [ nl +:+ "=== SCRAPING SUMMARY ===";
    "Total listings found: " +:+ pretty (List.length listings);
    "Files saved: olx_car_covers.json, olx_car_covers.csv";
    nl +:+ "=== SAMPLE LISTINGS ===" ].

(** The lines printed for the sample of index [i]. *)
Definition sample_lines (i : nat) (listing : dict) : list string :=
  [ nl +:+ pretty (S i) +:+ ". " +:+ subscript listing "title";
    "   Price: " +:+ subscript listing "price";
    "   Location: " +:+ subscript listing "location";
    "   Date: " +:+ subscript listing "date";
    "   Link: " +:+ subscript listing "link" ].

Fixpoint samples_lines (i : nat) (sample : list dict) : list string :=
  match sample with
  | [] => []
  | listing :: rest => sample_lines i listing ++ samples_lines (S i) rest
  end.

Definition json_file : string := "olx_car_covers.json".
Definition csv_file : string := "olx_car_covers.csv".

(** [main]: whatever is raised inside the [try] is caught and logged; in
    this model that is a [print] that raises. *)
Definition main : M unit :=
  log INFO "Starting OLX Car Cover Scraper..." ;;
  listings <- scrape_listings 3 ;;
  match listings with
  | _ :: _ =>
      log INFO ("Successfully scraped " +:+ pretty (List.length listings)
                +:+ " listings") ;;
      save_to_json listings json_file ;;
      save_to_csv listings csv_file ;;
      raised <- print_all (summary_lines listings
                           ++ samples_lines 0 (take 3 listings)) ;;
      match raised with
      | None => ret tt
      | Some e => log ERROR ("Error in main execution: " +:+ e)
      end
  | [] => log WARNING "No listings found"
  end.

End Scraper.

(** ** Vocabulary of the statements *)

(** A computation that, from every world, returns [a], leaves the files as
    they are and adds the events [t] to the trace. *)
Definition emits {A} (m : M A) (a : A) (t : list event) : Prop :=
  ∀ w, m w = (a, World (files w) (trace w ++ t)).

(** A computation that, from every world, returns [a], changes the files by
    [upd] and adds the events [t] to the trace. *)
Definition effect {A} (m : M A) (a : A)
    (upd : gmap string file_data → gmap string file_data) (t : list event) : Prop :=
  ∀ w, m w = (a, World (upd (files w)) (trace w ++ t)).

(** [upd] changes no file but those named in [names]. *)
Definition only_touches (names : list string)
    (upd : gmap string file_data → gmap string file_data) : Prop :=
  ∀ fs g, g ∉ names → upd fs !! g = fs !! g.

(** The addresses requested in a trace, in order. *)
Definition requests (t : list event) : list string :=
  omap (λ e, match e with HttpGet url _ => Some url | _ => None end) t.

Definition parses (t : list event) : list string :=
  omap (λ e, match e with ParseHtml c => Some c | _ => None end) t.

Definition writes (t : list event) : list string :=
  omap (λ e, match e with WriteFile f => Some f | _ => None end) t.

(** The sleeps of a trace, the lines printed, and the messages logged at a
    level, in order. *)
Definition sleeps (t : list event) : list Z :=
  omap (λ e, match e with Sleep n => Some n | _ => None end) t.

Definition prints (t : list event) : list string :=
  omap (λ e, match e with Print line => Some line | _ => None end) t.

Definition level_eqb (a b : level) : bool :=
  match a, b with
  | INFO, INFO | WARNING, WARNING | ERROR, ERROR => true
  | _, _ => false
  end.

Definition logged (lvl : level) (t : list event) : list string :=
  omap (λ e, match e with
             | Log l msg => if level_eqb l lvl then Some msg else None
             | _ => None
             end) t.





(** [d] is an anchor with an [href] attribute. *)
Definition has_href (d : PageElement) : Prop :=
  ∃ attrs contents, d = Tag "a" attrs contents ∧ is_Some (attrs !! "href").

(** The values of a record in the order of the six columns. *)
Definition row_of (d : dict) : list string :=
  map (λ key, default "" (dict_get key d)) FIELDS.

(** Every text of the record, key or value, can be encoded. *)
Definition record_encodable (d : dict) : bool :=
  forallb (λ kv, encodable (fst kv) && encodable (snd kv)) d.

Definition is_tag (e : PageElement) : Prop :=
  match e with
  | Tag _ _ _ => True
  | NavigableString _ | SpecialString _ => False
  end.

(** The record of a listing element whose link is [link]. *)
Definition record_with (e : PageElement) (link : string) : dict :=
  [("title", text_field e "itemTitle"); ("price", text_field e "itemPrice");
   ("location", text_field e "item-location"); ("link", link);
   ("date", text_field e "itemDate");
   ("description", text_field e "itemDescription")].

(** A log line of one of the two saves. *)
Definition save_line (msg : string) : bool :=
  String.prefix "Saved " msg || String.prefix "Error saving to " msg
  || String.eqb msg "No listings to save".

(** An event a save leaves: a write, or one of its log lines. *)
Definition save_event (e : event) : bool :=
  match e with
  | WriteFile _ => true
  | Log _ msg => save_line msg
  | HttpGet _ _ | ParseHtml _ | Sleep _ | Print _ => false
  end.

Section Vocabulary.
Variable env : Env.

(** The record [parse_listing] returns for an element, and the events of
    the call. *)
Definition record_of (e : PageElement) : option dict :=
  fst (parse_listing env e (World ∅ [])).

Definition parse_trace (e : PageElement) : list event :=
  trace (snd (parse_listing env e (World ∅ []))).

Definition title_extractable (e : PageElement) : bool :=
  negb (String.eqb (text_field e "itemTitle") NA).



(** The records a list of candidate nodes adds to the collection. *)
Definition contribution (listings : list PageElement) : list dict :=
  omap (λ e, if keep (record_of e) then record_of e else None) listings.

(** The candidate nodes of a page, when its fetch gives a payload that is
    not empty. *)
Definition candidates (page : Z) : option (list PageElement) :=
  match session_get env (page_url page) with
  | Content (String _ _ as content) => Some (discover (html_parser env content))
  | _ => None
  end.

(** Discovery fails on the page: it was fetched, and both strategies find
    nothing. *)
Definition no_listings (page : Z) : Prop :=
  ∃ content, session_get env (page_url page) = Content content ∧ content ≠ "" ∧
    primary (html_parser env content) = [] ∧ fallback (html_parser env content) = [].

Definition no_listingsb (page : Z) : bool :=
  match candidates page with Some [] => true | _ => false end.

(** The pages the loop goes through: up to the first one where discovery
    fails, that one included. *)
Fixpoint visited (pages : list Z) : list Z :=
  match pages with
  | [] => []
  | page :: rest => page :: if no_listingsb page then [] else visited rest
  end.


(** The events of one iteration of the page loop. *)
Definition page_trace (page : Z) : list event :=
  Log INFO ("Scraping page " +:+ pretty page +:+ "...")
  :: HttpGet (page_url page) 10
  :: match session_get env (page_url page) with
     | RequestException e =>
         [Log ERROR ("Error fetching " +:+ page_url page +:+ ": " +:+ e);
          Log WARNING ("Failed to fetch page " +:+ pretty page)]
     | Content EmptyString =>
         [Log WARNING ("Failed to fetch page " +:+ pretty page)]
     | Content content =>
         ParseHtml content
         :: match discover (html_parser env content) with
            | [] => [Log WARNING ("No listings found on page " +:+ pretty page)]
            | listings =>
                Log INFO ("Found " +:+ pretty (List.length listings)
                          +:+ " listings on page " +:+ pretty page)
                :: flat_map parse_trace listings ++ [Sleep 2]
            end
     end.

Definition page_flow (page : Z) : flow :=
  if no_listingsb page then Break else Next.

(** The records a page adds to the collection. *)
Definition page_records (page : Z) : list dict :=
  match candidates page with
  | Some listings => contribution listings
  | None => []
  end.

End Vocabulary.

(** ** Sample pages

    Payloads with the trees the HTML parser builds for them, used to run
    the definitions on concrete input. *)

Definition marked (marker text : string) : PageElement :=
  Tag "span" {[ "data-aut-id" := marker ]} [NavigableString text].

Definition document (contents : list PageElement) : PageElement :=
  Tag "[document]" ∅ contents.

Definition cover_html : string :=
  "<div data-aut-id='itemBox'><a href='/item/cover-1'>"
  +:+ "<span data-aut-id='itemTitle'> Waterproof car cover </span>"
  +:+ "<span data-aut-id='itemPrice'>Rs 500</span></a>"
  +:+ "<span data-aut-id='item-location'>Pune</span>"
  +:+ "<span data-aut-id='itemDate'>Today</span>"
  +:+ "<span data-aut-id='itemDescription'>Fits <b>all</b><!--new--> hatchbacks</span></div>".

Definition cover_box : PageElement :=
  Tag "div" {[ "data-aut-id" := "itemBox" ]}
    [ Tag "a" {[ "href" := "/item/cover-1" ]}
        [ marked "itemTitle" " Waterproof car cover ";
          marked "itemPrice" "Rs 500" ];
      marked "item-location" "Pune";
      marked "itemDate" "Today";
      Tag "span" {[ "data-aut-id" := "itemDescription" ]}
        [ NavigableString "Fits "; Tag "b" ∅ [NavigableString "all"];
          SpecialString "new"; NavigableString " hatchbacks" ] ].

(** A page found by the fallback selector only: a card without price,
    description and link, a card whose title reads "N/A", and a banner. *)
Definition cards_html : string :=
  "<div class='card Item-tile'><span data-aut-id='itemTitle'>Bike cover</span>"
  +:+ "<span data-aut-id='item-location'>Goa</span>"
  +:+ "<span data-aut-id='itemDate'>Mar 3</span></div>"
  +:+ "<div class='item'><span data-aut-id='itemTitle'> N/A </span></div>"
  +:+ "<div class='menu-items'>Sell</div>".

Definition bike_card : PageElement :=
  Tag "div" {[ "class" := "card Item-tile" ]}
    [ marked "itemTitle" "Bike cover";
      marked "item-location" "Goa";
      marked "itemDate" "Mar 3" ].

Definition na_card : PageElement :=
  Tag "div" {[ "class" := "item" ]} [ marked "itemTitle" " N/A " ].

Definition banner : PageElement :=
  Tag "div" {[ "class" := "menu-items" ]} [ NavigableString "Sell" ].

Definition no_results_html : string := "<p>No results</p>".


(** A card whose title reads "N/A" between two no-break spaces. *)
Definition nbsp : string := bytes [0xC2; 0xA0]%N.

Definition nbsp_card : PageElement :=
  Tag "div" {[ "class" := "item" ]} [ marked "itemTitle" (nbsp +:+ "N/A" +:+ nbsp) ].

(** A listing with a title, whose link [urljoin] rejects. *)
Definition broken_html : string :=
  "<div data-aut-id='itemBox'><a href='http://[broken'>"
  +:+ "<span data-aut-id='itemTitle'>Seat cover</span></a></div>".

Definition broken_box : PageElement :=
  Tag "div" {[ "data-aut-id" := "itemBox" ]}
    [ Tag "a" {[ "href" := "http://[broken" ]} [ marked "itemTitle" "Seat cover" ] ].

Definition sample_parser (content : string) : PageElement :=
  if String.eqb content cover_html then document [cover_box]
  else if String.eqb content cards_html then document [bike_card; na_card; banner]
  else if String.eqb content broken_html then document [broken_box]
  else if String.eqb content no_results_html
       then document [Tag "p" ∅ [NavigableString "No results"]]
  else document [].

(** A stand-in for [urljoin] on the shapes of reference the samples use: a
    path from the root, a full address, and an address with an unclosed
    bracket, which is rejected. *)
Definition sample_urljoin (base url : string) : Joined :=
  if String.eqb url "http://[broken" then ValueError "Invalid IPv6 URL"
  else if String.prefix "/" url then Url (base +:+ url) else Url url.

Definition sample_repr_set (s : list string) : string :=
  String.concat ", " (map (λ k, "'" +:+ k +:+ "'") s).

Definition sample_encode_error (chunk : list string) : string :=
  "'utf-8' codec can't encode character: surrogates not allowed".

(** Page 1 has one listing, page 2 times out, page 3 has the cards. *)
Definition sample_env : Env := {|
  session_get url :=
    if String.eqb url search_url then Content cover_html
    else if String.eqb url (search_url +:+ "?page=3") then Content cards_html
    else RequestException "Read timed out. (read timeout=10)";
  html_parser := sample_parser;
  urljoin := sample_urljoin;
  open_w _ := None;
  print_error _ := None;
  encode_error := sample_encode_error;
  repr_set := sample_repr_set
|}.

(** Every page answers with a page that has no listing. *)
Definition barren_env : Env := {|
  session_get _ := Content no_results_html;
  html_parser := sample_parser;
  urljoin := sample_urljoin;
  open_w _ := None;
  print_error _ := None;
  encode_error := sample_encode_error;
  repr_set := sample_repr_set
|}.

(** Page 1 answers with an empty payload, page 2 with one listing. *)
Definition hollow_env : Env := {|
  session_get url :=
    if String.eqb url search_url then Content "" else Content cover_html;
  html_parser := sample_parser;
  urljoin := sample_urljoin;
  open_w _ := None;
  print_error _ := None;
  encode_error := sample_encode_error;
  repr_set := sample_repr_set
|}.

(** As [sample_env], but the JSON file cannot be opened. *)
Definition locked_env : Env := {|
  session_get := session_get sample_env;
  html_parser := sample_parser;
  urljoin := sample_urljoin;
  open_w filename :=
    if String.eqb filename "olx_car_covers.json"
    then Some "[Errno 13] Permission denied: 'olx_car_covers.json'"
    else None;
  print_error _ := None;
  encode_error := sample_encode_error;
  repr_set := sample_repr_set
|}.

(** Every page answers with the listing whose link is rejected. *)
Definition broken_env : Env := {|
  session_get _ := Content broken_html;
  html_parser := sample_parser;
  urljoin := sample_urljoin;
  open_w _ := None;
  print_error _ := None;
  encode_error := sample_encode_error;
  repr_set := sample_repr_set
|}.

(** A record whose description is a lone surrogate (U+D83D), after a
    record that can be encoded. *)
Definition plain_record : dict :=
  [("title", "Car cover"); ("price", "Rs 300"); ("location", "Agra");
   ("link", "N/A"); ("date", "Today"); ("description", "Grey")].

Definition surrogate_record : dict :=
  [("title", "Boot cover"); ("price", "Rs 90"); ("location", "Agra");
   ("link", "N/A"); ("date", "Today");
   ("description", bytes [0xED; 0xA0; 0xBD]%N)].

Definition w0 : world := World ∅ [].

(** ** Running the samples *)

Example cover_record :
  record_of sample_env cover_box =
  Some [("title", "Waterproof car cover"); ("price", "Rs 500"); ("location", "Pune");
        ("link", "https://www.olx.in/item/cover-1"); ("date", "Today");
        ("description", "Fitsallhatchbacks")].
Proof. vm_compute. reflexivity. Qed.

Example bike_record :
  record_of sample_env bike_card =
  Some [("title", "Bike cover"); ("price", "N/A"); ("location", "Goa");
        ("link", "N/A"); ("date", "Mar 3"); ("description", "N/A")].
Proof. vm_compute. reflexivity. Qed.

Example nbsp_title : text_field nbsp_card "itemTitle" = "N/A".
Proof. vm_compute. reflexivity. Qed.

Example broken_record :
  parse_listing sample_env broken_box w0 =
  (None, World ∅ [Log ERROR "Error parsing listing: Invalid IPv6 URL"]).
Proof. vm_compute. reflexivity. Qed.

Example cards_discovered :
  discover (document [bike_card; na_card; banner]) = [bike_card; na_card; banner].
Proof. vm_compute. reflexivity. Qed.

Example dotted_class_discovered :
  fallback (document [Tag "div" {[ "class" := bytes [0xC4; 0xB0]%N +:+ "tem" ]} []])
  = [Tag "div" {[ "class" := bytes [0xC4; 0xB0]%N +:+ "tem" ]} []].
Proof. vm_compute. reflexivity. Qed.

Example sample_run :
  fst (scrape_listings sample_env 3 w0) =
  [ [("title", "Waterproof car cover"); ("price", "Rs 500"); ("location", "Pune");
     ("link", "https://www.olx.in/item/cover-1"); ("date", "Today");
     ("description", "Fitsallhatchbacks")];
    [("title", "Bike cover"); ("price", "N/A"); ("location", "Goa");
     ("link", "N/A"); ("date", "Mar 3"); ("description", "N/A")] ].
Proof. vm_compute. reflexivity. Qed.

Example sample_requests :
  requests (trace (snd (scrape_listings sample_env 3 w0))) =
  [search_url; search_url +:+ "?page=2"; search_url +:+ "?page=3"].
Proof. vm_compute. reflexivity. Qed.

Example barren_requests :
  requests (trace (snd (scrape_listings barren_env 3 w0))) = [search_url].
Proof. vm_compute. reflexivity. Qed.

Example broken_run :
  fst (scrape_listings broken_env 3 w0) = [] ∧
  logged ERROR (trace (snd (scrape_listings broken_env 1 w0)))
  = ["Error parsing listing: Invalid IPv6 URL"].
Proof. vm_compute. done. Qed.

Example surrogate_json :
  files (snd (save_to_json sample_env [plain_record; surrogate_record] json_file w0))
    !! json_file
  = Some (JsonCut [plain_record]
            [("title", "Boot cover"); ("price", "Rs 90"); ("location", "Agra");
             ("link", "N/A"); ("date", "Today")]
            (Some "description")).
Proof. vm_compute. reflexivity. Qed.

Example surrogate_csv :
  files (snd (save_to_csv sample_env [plain_record; surrogate_record] csv_file w0))
    !! csv_file
  = Some (CsvText [FIELDS; row_of plain_record]).
Proof. vm_compute. reflexivity. Qed.

(** ** Basic facts *)

(** *** Strings *)

Lemma app_cons a (s t : string) : String a s +:+ t = String a (s +:+ t).
Proof. reflexivity. Qed.





















(** *** The monad *)

Lemma world_eta w : World (files w) (trace w ++ []) = w.
Proof. destruct w; simpl. by rewrite app_nil_r. Qed.

Lemma emits_ret {A} (a : A) : emits (ret a) a [].
Proof. intros w. unfold ret. by rewrite world_eta. Qed.

Lemma emits_bind {A B} (m : M A) (k : A → M B) a b t t' :
  emits m a t → emits (k a) b t' → emits (bind m k) b (t ++ t').
Proof.
  intros Hm Hk w. unfold bind. rewrite Hm, Hk. simpl.
  by rewrite app_assoc.
Qed.

Lemma emits_emit e : emits (emit e) tt [e].
Proof. by intros w. Qed.

Lemma emits_log lvl msg : emits (log lvl msg) tt [Log lvl msg].
Proof. by intros w. Qed.

Lemma requests_app t t' : requests (t ++ t') = requests t ++ requests t'.
Proof. apply omap_app. Qed.

Lemma writes_app t t' : writes (t ++ t') = writes t ++ writes t'.
Proof. apply omap_app. Qed.

Lemma prints_app t t' : prints (t ++ t') = prints t ++ prints t'.
Proof. apply omap_app. Qed.


Lemma parses_app t t' : parses (t ++ t') = parses t ++ parses t'.
Proof. apply omap_app. Qed.

Lemma logged_app lvl t t' : logged lvl (t ++ t') = logged lvl t ++ logged lvl t'.
Proof. apply omap_app. Qed.

Lemma omap_flat_map {A B C} (f : B → option C) (g : A → list B) (l : list A) :
  omap f (flat_map g l) = flat_map (λ x, omap f (g x)) l.
Proof.
  induction l as [|x l IH]; [done|]. simpl. by rewrite omap_app, IH.
Qed.

Lemma flat_map_nil {A B} (l : list A) : flat_map (λ _, @nil B) l = [].
Proof. by induction l. Qed.

(** *** Searches *)

Lemma tag_matches_is_tag name filters e :
  tag_matches name filters e = true → is_tag e.
Proof. by destruct e. Qed.

Lemma find_all_tags e name filters : Forall is_tag (find_all e name filters).
Proof.
  apply Forall_forall. intros x Hx.
  apply list_elem_of_In, filter_In in Hx as [_ Hx].
  by eapply tag_matches_is_tag.
Qed.

Lemma discover_tags soup : Forall is_tag (discover soup).
Proof.
  unfold discover, primary, fallback.
  destruct (find_all soup "div" [("data-aut-id", MatchString "itemBox")]) eqn:E.
  - apply find_all_tags.
  - rewrite <- E. apply find_all_tags.
Qed.

Lemma discover_nil soup :
  discover soup = [] ↔ primary soup = [] ∧ fallback soup = [].
Proof.
  unfold discover. destruct (primary soup); split; try done.
  - intros [_ H]. done.
  - intros [H _]. done.
Qed.








(** *** Extraction of one listing *)

Section Extraction.
Variable env : Env.

Lemma parse_listing_url name attrs contents link :
  link_field env (Tag name attrs contents) = Url link →
  parse_listing env (Tag name attrs contents)
  = ret (Some (record_with (Tag name attrs contents) link)).
Proof. intros H. unfold parse_listing. by rewrite H. Qed.

Lemma parse_listing_error name attrs contents e :
  link_field env (Tag name attrs contents) = ValueError e →
  parse_listing env (Tag name attrs contents)
  = bind (log ERROR ("Error parsing listing: " +:+ e)) (λ _, ret None).
Proof. intros H. unfold parse_listing. by rewrite H. Qed.

(** The outcome of an extraction: a record and no event, or no record and
    one error line. *)
Lemma parse_outcome e :
  (∃ link, is_tag e ∧ link_field env e = Url link ∧
           record_of env e = Some (record_with e link) ∧ parse_trace env e = [])
  ∨ (∃ msg, record_of env e = None ∧ parse_trace env e = [Log ERROR msg] ∧
            (is_tag e → ∃ err, link_field env e = ValueError err ∧
                               msg = "Error parsing listing: " +:+ err)).
Proof.
  destruct e as [n a c|s|s].
  - destruct (link_field env (Tag n a c)) as [link|err] eqn:E.
    + left. exists link. unfold record_of, parse_trace.
      rewrite (parse_listing_url _ _ _ _ E). done.
    + right. eexists. unfold record_of, parse_trace.
      rewrite (parse_listing_error _ _ _ _ E).
      split; [done|]. split; [done|]. intros _. by exists err.
  - right. eexists. split; [done|]. split; [done|]. done.
  - right. eexists. split; [done|]. split; [done|]. done.
Qed.

Lemma parse_listing_emits e :
  emits (parse_listing env e) (record_of env e) (parse_trace env e).
Proof.
  destruct e as [n a c|s|s].
  - destruct (link_field env (Tag n a c)) as [link|err] eqn:E.
    + unfold record_of, parse_trace. rewrite (parse_listing_url _ _ _ _ E).
      apply emits_ret.
    + unfold record_of, parse_trace. rewrite (parse_listing_error _ _ _ _ E).
      by intros w.
  - by intros w.
  - by intros w.
Qed.

Lemma record_of_shape e d :
  record_of env e = Some d →
  is_tag e ∧ ∃ link, link_field env e = Url link ∧ d = record_with e link ∧
                     parse_trace env e = [].
Proof.
  intros H. destruct (parse_outcome e) as [(link & He & Hl & Hr & Ht)|(msg & Hr & _)].
  - split; [done|]. exists link. rewrite Hr in H. by injection H as <-.
  - congruence.
Qed.

Lemma keep_record e :
  keep (record_of env e)
  = match record_of env e with Some _ => title_extractable e | None => false end.
Proof.
  destruct (record_of env e) as [d|] eqn:E; [|done].
  apply record_of_shape in E as (_ & link & _ & -> & _). done.
Qed.


Lemma parse_trace_quiet e :
  requests (parse_trace env e) = [] ∧ writes (parse_trace env e) = [] ∧
  prints (parse_trace env e) = [] ∧ sleeps (parse_trace env e) = [] ∧
  parses (parse_trace env e) = [].
Proof.
  destruct (parse_outcome e) as [(link & _ & _ & _ & ->)|(msg & _ & -> & _)]; done.
Qed.

Lemma parse_all_emits listings all_listings :
  emits (parse_all env listings all_listings)
        (all_listings ++ contribution env listings)
        (flat_map (parse_trace env) listings).
Proof.
  revert all_listings. induction listings as [|e listings IH]; intros acc.
  - rewrite app_nil_r. apply emits_ret.
  - change (parse_all env (e :: listings) acc)
      with (bind (parse_listing env e) (λ parsed_listing,
              match parsed_listing with
              | Some d =>
                  if keep parsed_listing
                  then parse_all env listings (acc ++ [d])
                  else parse_all env listings acc
              | None => parse_all env listings acc
              end)).
    change (flat_map (parse_trace env) (e :: listings))
      with (parse_trace env e ++ flat_map (parse_trace env) listings).
    eapply emits_bind; [apply parse_listing_emits|].
    change (contribution env (e :: listings))
      with (match (if keep (record_of env e) then record_of env e else None) with
            | Some d => d :: contribution env listings
            | None => contribution env listings
            end).
    destruct (record_of env e) as [d|] eqn:Hd; [|apply IH].
    destruct (keep (Some d)).
    + specialize (IH (acc ++ [d])). rewrite <- app_assoc in IH. apply IH.
    + apply IH.
Qed.

Lemma contribution_valid listings d :
  d ∈ contribution env listings → subscript d "title" ≠ NA.
Proof.
  unfold contribution. rewrite list_elem_of_omap.
  intros (e & _ & He).
  destruct (keep (record_of env e)) eqn:Hk; [|done].
  rewrite He in Hk. destruct d; [done|]. simpl in Hk.
  apply negb_true_iff, String.eqb_neq in Hk. done.
Qed.

Lemma contribution_filter listings :
  contribution env listings =
  omap (record_of env) (List.filter title_extractable listings).
Proof.
  induction listings as [|e listings IH]; [done|].
  change (contribution env (e :: listings))
    with (match (if keep (record_of env e) then record_of env e else None) with
          | Some d => d :: contribution env listings
          | None => contribution env listings
          end).
  rewrite keep_record, IH.
  change (List.filter title_extractable (e :: listings))
    with (if title_extractable e
          then e :: List.filter title_extractable listings
          else List.filter title_extractable listings).
  destruct (record_of env e) as [d|] eqn:Hd.
  - destruct (title_extractable e); [|done].
    change (omap (record_of env) (e :: ?l))
      with (match record_of env e with
            | Some d => d :: omap (record_of env) l
            | None => omap (record_of env) l
            end).
    by rewrite Hd.
  - destruct (title_extractable e); [|done].
    change (omap (record_of env) (e :: ?l))
      with (match record_of env e with
            | Some d => d :: omap (record_of env) l
            | None => omap (record_of env) l
            end).
    by rewrite Hd.
Qed.


End Extraction.

(** *** One iteration of the page loop *)

Section Iteration.
Variable env : Env.

Lemma get_page_content_ok url payload :
  session_get env url = Content payload →
  emits (get_page_content env url) (Some payload) [HttpGet url 10].
Proof.
  intros H. unfold get_page_content. rewrite H.
  change [HttpGet url 10] with ([HttpGet url 10] ++ []).
  eapply emits_bind; [apply emits_emit | apply emits_ret].
Qed.

Lemma get_page_content_error url e :
  session_get env url = RequestException e →
  emits (get_page_content env url) None
    [HttpGet url 10; Log ERROR ("Error fetching " +:+ url +:+ ": " +:+ e)].
Proof.
  intros H. unfold get_page_content. rewrite H.
  change [HttpGet url 10; ?x] with ([HttpGet url 10] ++ [x] ++ []).
  eapply emits_bind; [apply emits_emit|].
  eapply emits_bind; [apply emits_log | apply emits_ret].
Qed.

Lemma process_page_failed page content all_listings :
  content = None ∨ content = Some "" →
  emits (process_page env page content all_listings) (Next, all_listings)
    [Log WARNING ("Failed to fetch page " +:+ pretty page)].
Proof.
  intros [-> | ->]; unfold process_page;
    change [?x] with ([x] ++ []);
    (eapply emits_bind; [apply emits_log | apply emits_ret]).
Qed.

Lemma process_page_barren page content all_listings :
  content ≠ "" → discover (html_parser env content) = [] →
  emits (process_page env page (Some content) all_listings) (Break, all_listings)
    [ParseHtml content; Log WARNING ("No listings found on page " +:+ pretty page)].
Proof.
  intros Hc Hd. destruct content as [|a s]; [done|].
  unfold process_page, BeautifulSoup.
  change [?x; ?y] with (([x] ++ []) ++ [y] ++ []).
  eapply emits_bind.
  { eapply emits_bind; [apply emits_emit | apply emits_ret]. }
  cbv zeta. rewrite Hd.
  eapply emits_bind; [apply emits_log | apply emits_ret].
Qed.

Lemma process_page_found page content all_listings :
  content ≠ "" → discover (html_parser env content) ≠ [] →
  let listings := discover (html_parser env content) in
  emits (process_page env page (Some content) all_listings)
    (Next, all_listings ++ contribution env listings)
    (ParseHtml content
     :: Log INFO ("Found " +:+ pretty (List.length listings)
                  +:+ " listings on page " +:+ pretty page)
     :: flat_map (parse_trace env) listings ++ [Sleep 2]).
Proof.
  intros Hc Hd listings. destruct content as [|a s]; [done|].
  unfold process_page, BeautifulSoup.
  change (?x :: ?y :: ?l ++ [?z]) with (([x] ++ []) ++ [y] ++ l ++ [z] ++ []).
  eapply emits_bind.
  { eapply emits_bind; [apply emits_emit | apply emits_ret]. }
  cbv zeta. fold listings. fold listings in Hd.
  destruct listings as [|e l] eqn:E; [done|]. rewrite <- E in *.
  eapply emits_bind; [apply emits_log|].
  eapply emits_bind; [apply parse_all_emits|].
  eapply emits_bind; [apply emits_emit | apply emits_ret].
Qed.

Lemma scrape_page_unfold page all_listings :
  scrape_page env page all_listings =
  bind (log INFO ("Scraping page " +:+ pretty page +:+ "..."))
    (λ _, bind (get_page_content env (page_url page))
            (λ content, process_page env page content all_listings)).
Proof. reflexivity. Qed.

(** The fetch raises: the failure is logged twice (by the fetcher and by
    the loop) and the iteration ends. *)
Lemma scrape_page_error page all_listings e :
  session_get env (page_url page) = RequestException e →
  emits (scrape_page env page all_listings) (Next, all_listings)
    [Log INFO ("Scraping page " +:+ pretty page +:+ "...");
     HttpGet (page_url page) 10;
     Log ERROR ("Error fetching " +:+ page_url page +:+ ": " +:+ e);
     Log WARNING ("Failed to fetch page " +:+ pretty page)].
Proof.
  intros H. rewrite scrape_page_unfold.
  change [?a; ?b; ?c; ?d] with ([a] ++ [b; c] ++ [d]).
  eapply emits_bind; [apply emits_log|].
  eapply emits_bind; [by apply get_page_content_error|].
  apply process_page_failed. by left.
Qed.

Lemma scrape_page_empty page all_listings :
  session_get env (page_url page) = Content "" →
  emits (scrape_page env page all_listings) (Next, all_listings)
    [Log INFO ("Scraping page " +:+ pretty page +:+ "...");
     HttpGet (page_url page) 10;
     Log WARNING ("Failed to fetch page " +:+ pretty page)].
Proof.
  intros H. rewrite scrape_page_unfold.
  change [?a; ?b; ?d] with ([a] ++ [b] ++ [d]).
  eapply emits_bind; [apply emits_log|].
  eapply emits_bind; [by apply get_page_content_ok|].
  apply process_page_failed. by right.
Qed.

Lemma scrape_page_barren page all_listings content :
  session_get env (page_url page) = Content content → content ≠ "" →
  discover (html_parser env content) = [] →
  emits (scrape_page env page all_listings) (Break, all_listings)
    [Log INFO ("Scraping page " +:+ pretty page +:+ "...");
     HttpGet (page_url page) 10;
     ParseHtml content;
     Log WARNING ("No listings found on page " +:+ pretty page)].
Proof.
  intros H Hc Hd. rewrite scrape_page_unfold.
  change [?a; ?b; ?c; ?d] with ([a] ++ [b] ++ [c; d]).
  eapply emits_bind; [apply emits_log|].
  eapply emits_bind; [by apply get_page_content_ok|].
  by apply process_page_barren.
Qed.

Lemma scrape_page_found page all_listings content :
  session_get env (page_url page) = Content content → content ≠ "" →
  discover (html_parser env content) ≠ [] →
  let listings := discover (html_parser env content) in
  emits (scrape_page env page all_listings)
    (Next, all_listings ++ contribution env listings)
    (Log INFO ("Scraping page " +:+ pretty page +:+ "...")
     :: HttpGet (page_url page) 10
     :: ParseHtml content
     :: Log INFO ("Found " +:+ pretty (List.length listings)
                  +:+ " listings on page " +:+ pretty page)
     :: flat_map (parse_trace env) listings ++ [Sleep 2]).
Proof.
  intros H Hc Hd listings. rewrite scrape_page_unfold.
  change (?a :: ?b :: ?c :: ?d :: ?l) with ([a] ++ [b] ++ (c :: d :: l)).
  eapply emits_bind; [apply emits_log|].
  eapply emits_bind; [by apply get_page_content_ok|].
  by apply process_page_found.
Qed.

End Iteration.

(** *** The page loop *)

Section Loop.
Variable env : Env.

Lemma no_listingsb_spec page : no_listingsb env page = true ↔ no_listings env page.
Proof.
  unfold no_listingsb, no_listings, candidates.
  destruct (session_get env (page_url page)) as [content|e].
  - destruct content as [|a s].
    + split; [done|]. intros (c & [= <-] & Hc & _). done.
    + destruct (discover (html_parser env (String a s))) eqn:Hd.
      * split; [intros _|done]. apply discover_nil in Hd as [??].
        exists (String a s). done.
      * split; [done|]. intros (c & [= <-] & _ & H1 & H2).
        assert (discover (html_parser env (String a s)) = []) by by apply discover_nil.
        congruence.
  - split; [done|]. intros (c & ? & _). done.
Qed.

Lemma page_records_barren page : no_listingsb env page = true → page_records env page = [].
Proof.
  unfold no_listingsb, page_records.
  destruct (candidates env page) as [[|]|]; done.
Qed.

Lemma scrape_page_trace page all_listings :
  emits (scrape_page env page all_listings)
    (page_flow env page, all_listings ++ page_records env page)
    (page_trace env page).
Proof.
  unfold page_flow, page_records, no_listingsb, candidates, page_trace.
  destruct (session_get env (page_url page)) as [content|e] eqn:Hget.
  - destruct content as [|a s].
    + rewrite app_nil_r. by apply scrape_page_empty.
    + destruct (discover (html_parser env (String a s))) as [|x l] eqn:Hd.
      * rewrite app_nil_r. by eapply scrape_page_barren.
      * rewrite <- Hd. eapply scrape_page_found; [done..|congruence].
  - rewrite app_nil_r. by eapply scrape_page_error.
Qed.

Lemma flat_parse_quiet (listings : list PageElement) :
  requests (flat_map (parse_trace env) listings) = [] ∧
  writes (flat_map (parse_trace env) listings) = [] ∧
  prints (flat_map (parse_trace env) listings) = [] ∧
  sleeps (flat_map (parse_trace env) listings) = [] ∧
  parses (flat_map (parse_trace env) listings) = [].
Proof.
  unfold requests, writes, prints, sleeps, parses. rewrite !omap_flat_map.
  rewrite (flat_map_ext _ _ (λ e, proj1 (parse_trace_quiet env e))).
  rewrite (flat_map_ext _ _ (λ e, proj1 (proj2 (parse_trace_quiet env e)))).
  rewrite (flat_map_ext _ _ (λ e, proj1 (proj2 (proj2 (parse_trace_quiet env e))))).
  rewrite (flat_map_ext _ _
             (λ e, proj1 (proj2 (proj2 (proj2 (parse_trace_quiet env e)))))).
  rewrite (flat_map_ext _ _
             (λ e, proj2 (proj2 (proj2 (proj2 (parse_trace_quiet env e)))))).
  by rewrite !flat_map_nil.
Qed.

Lemma requests_page_trace page : requests (page_trace env page) = [page_url page].
Proof.
  unfold page_trace.
  destruct (session_get env (page_url page)) as [[|a s]|e]; try done.
  destruct (discover (html_parser env (String a s))) as [|x l]; [done|].
  change (requests (?a :: ?b :: ?c :: ?d :: ?t)) with (page_url page :: requests t).
  rewrite requests_app. destruct (flat_parse_quiet (x :: l)) as (-> & _). done.
Qed.

Lemma writes_page_trace page : writes (page_trace env page) = [].
Proof.
  unfold page_trace.
  destruct (session_get env (page_url page)) as [[|a s]|e]; try done.
  destruct (discover (html_parser env (String a s))) as [|x l]; [done|].
  change (writes (?a :: ?b :: ?c :: ?d :: ?t)) with (writes t).
  rewrite writes_app. destruct (flat_parse_quiet (x :: l)) as (_ & -> & _). done.
Qed.

Lemma prints_page_trace page : prints (page_trace env page) = [].
Proof.
  unfold page_trace.
  destruct (session_get env (page_url page)) as [[|a s]|e]; try done.
  destruct (discover (html_parser env (String a s))) as [|x l]; [done|].
  change (prints (?a :: ?b :: ?c :: ?d :: ?t)) with (prints t).
  rewrite prints_app. destruct (flat_parse_quiet (x :: l)) as (_ & _ & -> & _). done.
Qed.


Lemma parses_page_trace page :
  parses (page_trace env page) =
  match session_get env (page_url page) with
  | Content (String _ _ as content) => [content]
  | _ => []
  end.
Proof.
  unfold page_trace.
  destruct (session_get env (page_url page)) as [[|a s]|e]; try done.
  destruct (discover (html_parser env (String a s))) as [|x l]; [done|].
  change (parses (?a :: ?b :: ParseHtml ?c :: ?d :: ?t)) with (c :: parses t).
  rewrite parses_app. destruct (flat_parse_quiet (x :: l)) as (_ & _ & _ & _ & ->). done.
Qed.

Lemma scrape_page_spec page all_listings :
  ∃ t, emits (scrape_page env page all_listings)
         (page_flow env page, all_listings ++ page_records env page) t
       ∧ requests t = [page_url page] ∧ writes t = [].
Proof.
  exists (page_trace env page). split; [apply scrape_page_trace|].
  split; [apply requests_page_trace | apply writes_page_trace].
Qed.

Lemma scrape_pages_unfold page rest all_listings :
  scrape_pages env (page :: rest) all_listings =
  bind (scrape_page env page all_listings)
    (λ r, match r with
          | (Next, all_listings) => scrape_pages env rest all_listings
          | (Break, all_listings) => ret all_listings
          end).
Proof. reflexivity. Qed.

Lemma scrape_pages_trace pages all_listings :
  emits (scrape_pages env pages all_listings)
    (all_listings ++ flat_map (page_records env) (visited env pages))
    (flat_map (page_trace env) (visited env pages)).
Proof.
  revert all_listings. induction pages as [|page rest IH]; intros acc.
  - rewrite app_nil_r. apply emits_ret.
  - rewrite scrape_pages_unfold. simpl visited.
    pose proof (scrape_page_trace page acc) as H1. unfold page_flow in H1.
    destruct (no_listingsb env page) eqn:Hb.
    + change (flat_map ?f [page]) with (f page ++ []).
      eapply emits_bind; [apply H1|]. cbv beta iota.
      rewrite app_nil_r. apply emits_ret.
    + change (flat_map ?f (page :: ?l)) with (f page ++ flat_map f l).
      eapply emits_bind; [apply H1|]. cbv beta iota.
      rewrite app_assoc. apply IH.
Qed.

Lemma run_trace_requests (pages : list Z) :
  requests (flat_map (page_trace env) pages) = map page_url pages.
Proof.
  unfold requests. rewrite omap_flat_map.
  rewrite (flat_map_ext _ _ requests_page_trace).
  induction pages as [|p l IH]; [done|]. simpl. by rewrite IH.
Qed.

Lemma run_trace_quiet (pages : list Z) :
  prints (flat_map (page_trace env) pages) = [] ∧
  writes (flat_map (page_trace env) pages) = [].
Proof.
  unfold prints, writes. rewrite !omap_flat_map.
  rewrite (flat_map_ext _ _ prints_page_trace),
          (flat_map_ext _ _ writes_page_trace).
  by rewrite !flat_map_nil.
Qed.

(** The loop asks for the visited pages, one request each, in order, and
    returns the records of those pages, in order. *)
Lemma scrape_pages_spec pages all_listings :
  ∃ t, emits (scrape_pages env pages all_listings)
         (all_listings ++ flat_map (page_records env) (visited env pages)) t
       ∧ requests t = map page_url (visited env pages) ∧ writes t = [].
Proof.
  eexists. split; [apply scrape_pages_trace|].
  split; [apply run_trace_requests | apply run_trace_quiet].
Qed.

Lemma visited_cases pages :
  visited env pages = pages
  ∨ ∃ before k after, pages = before ++ k :: after
      ∧ visited env pages = before ++ [k] ∧ no_listingsb env k = true.
Proof.
  induction pages as [|page rest IH]; [by left|]. simpl.
  destruct (no_listingsb env page) eqn:Hb.
  - right. exists [], page, rest. done.
  - destruct IH as [-> | (before & k & after & -> & -> & Hk)]; [by left|].
    right. exists (page :: before), k, after. done.
Qed.

Lemma visited_all pages :
  (∀ k, k ∈ pages → no_listingsb env k = false) → visited env pages = pages.
Proof.
  induction pages as [|page rest IH]; [done|]. intros H. simpl.
  rewrite (H page) by apply list_elem_of_here.
  rewrite IH; [done|]. intros k Hk. apply H. by apply list_elem_of_further.
Qed.

(** Over an increasing run of page numbers, nothing past a page where
    discovery fails is visited. *)
Lemma visited_seqZ_le (n : nat) (a k j : Z) :
  (a ≤ k < a + Z.of_nat n)%Z → no_listingsb env k = true →
  j ∈ visited env (seqZ a (Z.of_nat n)) → (j ≤ k)%Z.
Proof.
  revert a. induction n as [|n IH]; intros a Hk Hb; [lia|].
  rewrite seqZ_cons by lia. simpl.
  replace (Z.pred (Z.of_nat (S n))) with (Z.of_nat n) by lia.
  intros Hj. apply elem_of_cons in Hj as [->|Hj]; [lia|].
  destruct (decide (a = k)) as [->|Hne].
  - rewrite Hb in Hj. by apply elem_of_nil in Hj.
  - destruct (no_listingsb env a); [by apply elem_of_nil in Hj|].
    apply (IH (Z.succ a)); [lia|done..].
Qed.

Lemma visited_prefix pages : visited env pages `prefix_of` pages.
Proof.
  induction pages as [|page rest IH]; [done|]. simpl.
  destruct (no_listingsb env page).
  - by exists rest.
  - by apply prefix_cons.
Qed.

Lemma visited_snoc pages page :
  visited env (pages ++ [page]) =
  visited env pages
  ++ (if existsb (no_listingsb env) pages then [] else [page]).
Proof.
  induction pages as [|p rest IH]; simpl.
  - by destruct (no_listingsb env page).
  - destruct (no_listingsb env p); simpl; [done|]. by rewrite IH.
Qed.

Lemma visited_in_range (max_pages page : Z) :
  page ∈ visited env (range 1 (max_pages + 1)) → (1 ≤ page ≤ max_pages)%Z.
Proof.
  intros H. eapply elem_of_prefix in H; [|apply visited_prefix].
  unfold range in H. apply elem_of_seqZ in H. lia.
Qed.

Lemma scrape_listings_trace max_pages :
  emits (scrape_listings env max_pages)
    (flat_map (page_records env) (visited env (range 1 (max_pages + 1))))
    (flat_map (page_trace env) (visited env (range 1 (max_pages + 1)))).
Proof. apply (scrape_pages_trace _ []). Qed.

Lemma scrape_listings_spec max_pages :
  ∃ t, emits (scrape_listings env max_pages)
         (flat_map (page_records env) (visited env (range 1 (max_pages + 1)))) t
       ∧ requests t = map page_url (visited env (range 1 (max_pages + 1)))
       ∧ writes t = [].
Proof. apply (scrape_pages_spec _ []). Qed.

Lemma page_records_valid page d :
  d ∈ page_records env page → subscript d "title" ≠ NA.
Proof.
  unfold page_records. destruct (candidates env page).
  - apply contribution_valid.
  - intros H. by apply elem_of_nil in H.
Qed.

Lemma scrape_listings_valid max_pages w d :
  d ∈ fst (scrape_listings env max_pages w) → subscript d "title" ≠ NA.
Proof.
  rewrite (scrape_listings_trace max_pages w). simpl.
  rewrite list_elem_of_In, in_flat_map.
  intros (page & _ & Hd). eapply page_records_valid. by apply list_elem_of_In.
Qed.

(** Every record of a run is the record of a candidate node of a page the
    loop went through. *)
Lemma scrape_listings_origin max_pages w d :
  d ∈ fst (scrape_listings env max_pages w) →
  ∃ page listings e,
    page ∈ visited env (range 1 (max_pages + 1)) ∧
    candidates env page = Some listings ∧ e ∈ listings ∧
    record_of env e = Some d ∧ keep (record_of env e) = true.
Proof.
  rewrite (scrape_listings_trace max_pages w). cbn [fst].
  rewrite list_elem_of_In, in_flat_map.
  intros (page & Hp & Hd). unfold page_records in Hd.
  destruct (candidates env page) as [l|] eqn:Hc; [|done].
  apply list_elem_of_In, list_elem_of_omap in Hd as (e & He & Hr).
  destruct (keep (record_of env e)) eqn:Hk; [|done].
  exists page, l, e. split; [by apply list_elem_of_In|done].
Qed.

Lemma scrape_pages_extends pages all_listings w :
  ∃ new, fst (scrape_pages env pages all_listings w) = all_listings ++ new.
Proof. rewrite (scrape_pages_trace pages all_listings w). eauto. Qed.

Lemma candidates_tags page listings :
  candidates env page = Some listings → Forall is_tag listings.
Proof.
  unfold candidates. destruct (session_get env (page_url page)) as [[|a s]|]; try done.
  intros [= <-]. apply discover_tags.
Qed.

End Loop.

Lemma page_url_inj : Inj (=) (=) page_url.
Proof.
  assert (∀ s, search_url ≠ search_url +:+ "?page=" +:+ s) as Hne.
  { intros s H. change search_url with (search_url +:+ "") in H at 1.
    apply String.app_inj in H. done. }
  intros i j. unfold page_url.
  destruct (Z.eqb_spec i 1) as [->|Hi], (Z.eqb_spec j 1) as [->|Hj]; intros H.
  - done.
  - by apply Hne in H.
  - symmetry in H. by apply Hne in H.
  - apply String.app_inj in H. apply String.app_inj in H.
    by apply (inj pretty) in H.
Qed.

Lemma seqZ_split (before after : list Z) (a n k : Z) :
  seqZ a n = before ++ k :: after →
  before ++ [k] = seqZ a (k + 1 - a) ∧ (a ≤ k < a + n)%Z.
Proof.
  revert a n. induction before as [|b bs IH]; intros a n H.
  - destruct (decide (0 < n)%Z) as [Hn|Hn].
    2:{ rewrite seqZ_nil in H by lia. done. }
    rewrite seqZ_cons in H by done. injection H as <- _.
    replace (a + 1 - a)%Z with 1%Z by lia. split; [done|lia].
  - destruct (decide (0 < n)%Z) as [Hn|Hn].
    2:{ rewrite seqZ_nil in H by lia. done. }
    rewrite seqZ_cons in H by done. simpl in H. injection H as <- H.
    apply IH in H as [H ?]. split; [|lia].
    rewrite (seqZ_cons a) by lia. simpl. rewrite H. f_equal. f_equal. lia.
Qed.

Lemma NoDup_prefix {A} (l1 l2 : list A) : l1 `prefix_of` l2 → NoDup l2 → NoDup l1.
Proof. intros [k ->] H. by apply NoDup_app in H as [? _]. Qed.

Lemma map_prefix {A B} (f : A → B) (l1 l2 : list A) :
  l1 `prefix_of` l2 → map f l1 `prefix_of` map f l2.
Proof. intros [k ->]. rewrite map_app. by eexists. Qed.

(** ** Termination of the page loop *)

(** C2.  In every run of [scrape_listings max_pages]: if discovery fails on
    a page [k] of [1..max_pages] (its fetch gives a payload, and neither the
    [itemBox] selector nor the "item" class pattern finds a node), no page
    after [k] is requested.  Discovery failure is the only early exit: when
    it happens on no page, every page [1..max_pages] is requested, whatever
    the fetches answer; and when fewer than [max_pages] requests were made,
    the pages requested are [1..k] for a page [k] on which discovery
    failed. *)
Theorem discovery_failure_is_the_only_early_exit env (max_pages : Z) :
  ∃ listings t,
    emits (scrape_listings env max_pages) listings t ∧
    (∀ k j : Z, (1 ≤ k ≤ max_pages)%Z → no_listings env k → (k < j)%Z →
       page_url j ∉ requests t) ∧
    ((∀ k : Z, (1 ≤ k ≤ max_pages)%Z → ¬ no_listings env k) →
       requests t = map page_url (range 1 (max_pages + 1))) ∧
    ((List.length (requests t) < Z.to_nat max_pages)%nat →
       ∃ k : Z, (1 ≤ k ≤ max_pages)%Z ∧ no_listings env k ∧
         requests t = map page_url (range 1 (k + 1))).
Proof.
  destruct (scrape_listings_spec env max_pages) as (t & H & Hr & _).
  eexists _, t. split; [exact H|]. unfold range in *.
  replace (max_pages + 1 - 1)%Z with max_pages in * by lia.
  split; [|split].
  - intros k j Hk Hno Hlt Hin. rewrite Hr in Hin.
    apply list_elem_of_fmap in Hin as (j' & Heq & Hin).
    apply page_url_inj in Heq as <-.
    apply no_listingsb_spec in Hno.
    replace max_pages with (Z.of_nat (Z.to_nat max_pages)) in Hin by lia.
    apply (visited_seqZ_le env _ 1 k j) in Hin; [lia|lia|done].
  - intros Hnone. rewrite Hr. f_equal. apply visited_all.
    intros k Hk%elem_of_seqZ. apply not_true_is_false.
    rewrite no_listingsb_spec. apply Hnone. lia.
  - intros Hlen. rewrite Hr, length_map in Hlen.
    destruct (visited_cases env (seqZ 1 max_pages))
      as [Heq | (before & k & after & Hsplit & Hv & Hk)].
    + rewrite Heq, length_seqZ in Hlen. lia.
    + apply seqZ_split in Hsplit as [Hsplit Hk'].
      exists k. split; [lia|]. split; [by apply no_listingsb_spec|].
      by rewrite Hr, Hv, Hsplit.
Qed.

(** C3.  A fetch that raises ends the iteration only: the loop goes on with
    the remaining pages and the collection it had.  With three pages, when
    page 1 gives one record, the fetch of page 2 raises and page 3 gives one
    record, all three pages are requested and the collection is the record
    of page 1 followed by the record of page 3. *)
Theorem fetch_failure_does_not_stop_the_loop env :
  (∀ page rest all_listings e,
     session_get env (page_url page) = RequestException e →
     ∃ t, emits (scrape_page env page all_listings) (Next, all_listings) t ∧
          parses t = [] ∧
          ∀ w, scrape_pages env (page :: rest) all_listings w =
               scrape_pages env rest all_listings (World (files w) (trace w ++ t))) ∧
  (∀ e r1 r3,
     page_records env 1 = [r1] →
     session_get env (page_url 2) = RequestException e →
     page_records env 3 = [r3] →
     ∃ t, emits (scrape_listings env 3) [r1; r3] t ∧
          requests t = [page_url 1; page_url 2; page_url 3]).
Proof.
  split.
  - intros page rest acc e Hget. eexists. split; [by eapply scrape_page_error|].
    split; [done|]. intros w. rewrite scrape_pages_unfold. unfold bind.
    by rewrite (scrape_page_error env page acc e Hget w).
  - intros e r1 r3 H1 H2 H3.
    destruct (scrape_listings_spec env 3) as (t & H & Hr & _).
    assert (visited env (range 1 (3 + 1)) = [1; 2; 3]%Z) as Hv.
    { change (range 1 (3 + 1)) with [1; 2; 3]%Z. simpl.
      assert (∀ p r, page_records env p = [r] → no_listingsb env p = false) as Hnb.
      { intros p r Hp. destruct (no_listingsb env p) eqn:Hb; [|done].
        apply page_records_barren in Hb. congruence. }
      rewrite (Hnb _ _ H1), (Hnb _ _ H3).
      unfold no_listingsb, candidates. by rewrite H2. }
    rewrite Hv in H, Hr. exists t. split; [|done].
    simpl in H. rewrite H1, H3 in H.
    unfold page_records, candidates in H. rewrite H2 in H. exact H.
Qed.

Lemma fetch_failure_does_not_stop_the_loop_sample :
  ∃ r1 r3 t, emits (scrape_listings sample_env 3) [r1; r3] t ∧
             requests t = [page_url 1; page_url 2; page_url 3].
Proof.
  eexists _, _.
  apply (proj2 (fetch_failure_does_not_stop_the_loop sample_env)
           "Read timed out. (read timeout=10)");
    vm_compute; reflexivity.
Defined.

(** C9.  When the fetch of a page succeeds with an empty payload, the
    fetcher returns that empty content (not its failure value), and the
    loop does with it exactly what it does with the failure value: it logs
    "Failed to fetch page", never hands the content to the parser, keeps the
    collection, and goes on with the next page. *)
Theorem empty_payload_is_a_failed_fetch env page all_listings :
  session_get env (page_url page) = Content "" →
  let t := [Log INFO ("Scraping page " +:+ pretty page +:+ "...");
            HttpGet (page_url page) 10;
            Log WARNING ("Failed to fetch page " +:+ pretty page)] in
  emits (get_page_content env (page_url page)) (Some "") [HttpGet (page_url page) 10] ∧
  process_page env page (Some "") all_listings = process_page env page None all_listings ∧
  emits (scrape_page env page all_listings) (Next, all_listings) t ∧
  parses t = [] ∧
  ∀ rest w, scrape_pages env (page :: rest) all_listings w =
            scrape_pages env rest all_listings (World (files w) (trace w ++ t)).
Proof.
  intros Hget t. split; [by apply get_page_content_ok|]. split; [done|].
  split; [by apply scrape_page_empty|]. split; [done|].
  intros rest w. rewrite scrape_pages_unfold. unfold bind.
  by rewrite (scrape_page_empty env page all_listings Hget w).
Qed.

Lemma empty_payload_is_a_failed_fetch_sample :
  fst (scrape_listings hollow_env 2 w0) = contribution hollow_env [cover_box] ∧
  parses (trace (snd (scrape_listings hollow_env 2 w0))) = [cover_html].
Proof.
  pose proof (empty_payload_is_a_failed_fetch hollow_env 1 [] eq_refl) as (_ & _ & _ & _ & H).
  unfold scrape_listings. change (range 1 (2 + 1)) with [1; 2]%Z.
  rewrite H. vm_compute. done.
Defined.

(** ** The collection *)

(** C4.  In every run, each record of the collection has a title that is
    not "N/A".  That is the only condition: the record of every candidate
    node of a visited page whose title is not "N/A" is in the collection.
    The collection only grows at its end: an iteration, and the loop over
    any pages, return the collection they were given followed by the new
    records, so a record once appended stays as it is. *)
Theorem collection_holds_titled_records env :
  (∀ max_pages w d, d ∈ fst (scrape_listings env max_pages w) →
     ∃ title, dict_get "title" d = Some title ∧ title ≠ NA) ∧
  (∀ max_pages w page listings e d,
     page ∈ visited env (range 1 (max_pages + 1)) →
     candidates env page = Some listings → e ∈ listings →
     record_of env e = Some d → subscript d "title" ≠ NA →
     d ∈ fst (scrape_listings env max_pages w)) ∧
  (∀ page all_listings w,
     ∃ new, snd (fst (scrape_page env page all_listings w)) = all_listings ++ new) ∧
  (∀ pages all_listings w,
     ∃ new, fst (scrape_pages env pages all_listings w) = all_listings ++ new).
Proof.
  split; [|split; [|split]].
  - intros max_pages w d Hin.
    pose proof (scrape_listings_valid _ _ _ _ Hin) as Hv.
    apply scrape_listings_origin in Hin as (page & l & e & _ & _ & _ & Hr & _).
    apply record_of_shape in Hr as (_ & link & _ & -> & _).
    eexists. split; [reflexivity|]. exact Hv.
  - intros max_pages w page listings e d Hp Hc He Hr Hv.
    rewrite (scrape_listings_trace env max_pages w). cbn [fst].
    apply list_elem_of_In, in_flat_map.
    exists page. split; [by apply list_elem_of_In|].
    unfold page_records. rewrite Hc. apply list_elem_of_In.
    unfold contribution. apply list_elem_of_omap. exists e. split; [done|].
    rewrite Hr. pose proof Hr as Hs.
    apply record_of_shape in Hs as (_ & link & _ & -> & _).
    apply String.eqb_neq in Hv. cbn [keep]. by rewrite Hv.
  - intros page acc w.
    rewrite (scrape_page_trace env page acc w). simpl. eauto.
  - intros. apply scrape_pages_extends.
Qed.

(** ** Further properties of the page loop *)

(** X1.  A run asks for pages [1], [2], ... in order, each at most once (no
    retry), and never for more than [max_pages] of them: the addresses
    requested are a prefix of the addresses of the pages [1..max_pages],
    and no address is requested twice. *)
Theorem requests_once_each_in_order env (max_pages : Z) :
  ∃ listings t,
    emits (scrape_listings env max_pages) listings t ∧
    requests t `prefix_of` map page_url (range 1 (max_pages + 1)) ∧
    NoDup (requests t) ∧
    (List.length (requests t) ≤ Z.to_nat max_pages)%nat.
Proof.
  destruct (scrape_listings_spec env max_pages) as (t & H & Hr & _).
  eexists _, t. split; [exact H|].
  assert (requests t `prefix_of` map page_url (range 1 (max_pages + 1))) as Hp.
  { rewrite Hr. apply map_prefix, visited_prefix. }
  split; [done|]. split.
  - eapply NoDup_prefix; [exact Hp|].
    change (map page_url ?l) with (page_url <$> l).
    apply (@NoDup_fmap_2 _ _ page_url page_url_inj), NoDup_seqZ.
  - apply prefix_length in Hp. rewrite length_map in Hp.
    unfold range in Hp. rewrite length_seqZ in Hp. lia.
Qed.

(** X2.  With [max_pages] zero or negative the loop body never runs: the
    collection is empty and nothing happens, no request and no log line. *)
Theorem no_pages_no_effect env (max_pages : Z) :
  (max_pages ≤ 0)%Z → emits (scrape_listings env max_pages) [] [].
Proof.
  intros H. unfold scrape_listings, range.
  rewrite seqZ_nil by lia. apply emits_ret.
Qed.

Lemma no_pages_no_effect_sample : emits (scrape_listings sample_env (-2)) [] [].
Proof. apply (no_pages_no_effect sample_env (-2)). lia. Defined.

(** X3.  The collection of a run is, in page order, the records of the
    pages the loop went through; the records of a page are those of its
    candidate nodes that have a title, in node order. *)
Theorem collection_in_page_and_node_order env (max_pages : Z) w :
  fst (scrape_listings env max_pages w) =
  flat_map (page_records env) (visited env (range 1 (max_pages + 1))) ∧
  ∀ page listings, candidates env page = Some listings →
    page_records env page =
    omap (record_of env) (List.filter title_extractable listings).
Proof.
  split.
  - by rewrite (scrape_listings_trace env max_pages w).
  - intros page listings Hc. unfold page_records. rewrite Hc.
    apply contribution_filter.
Qed.

(** X4.  Asking for one more page never changes what the pages before it
    gave: the collection of a run over [max_pages] pages is a prefix of the
    collection of a run over [max_pages + 1] pages. *)
Theorem one_more_page_extends_collection env (max_pages : Z) w w' :
  fst (scrape_listings env max_pages w)
  `prefix_of` fst (scrape_listings env (max_pages + 1) w').
Proof.
  rewrite (scrape_listings_trace env max_pages w),
          (scrape_listings_trace env (max_pages + 1) w'). cbn [fst].
  unfold range. replace (max_pages + 1 - 1)%Z with max_pages by lia.
  replace (max_pages + 1 + 1 - 1)%Z with (max_pages + 1)%Z by lia.
  destruct (decide (0 ≤ max_pages)%Z) as [Hn|Hn].
  - rewrite (seqZ_app 1 max_pages 1) by lia.
    change (seqZ (1 + max_pages) 1) with [(1 + max_pages)%Z].
    rewrite visited_snoc, flat_map_app. by eexists.
  - rewrite (seqZ_nil 1 max_pages) by lia. apply prefix_nil.
Qed.


(** X6.  The parser is only ever given a payload that a request of this
    run returned and that is not empty; it is called at most once per
    request. *)
Theorem parser_gets_fetched_payloads env (max_pages : Z) :
  ∃ listings t,
    emits (scrape_listings env max_pages) listings t ∧
    (∀ content, content ∈ parses t →
       content ≠ "" ∧
       ∃ page, (1 ≤ page ≤ max_pages)%Z ∧ page_url page ∈ requests t ∧
               session_get env (page_url page) = Content content) ∧
    (List.length (parses t) ≤ List.length (requests t))%nat.
Proof.
  eexists _, _. split; [apply scrape_listings_trace|].
  rewrite run_trace_requests. split.
  - intros content Hin. unfold parses in Hin. rewrite omap_flat_map in Hin.
    rewrite (flat_map_ext _ _ (parses_page_trace env)) in Hin.
    apply list_elem_of_In, in_flat_map in Hin as (page & Hp & Hin).
    destruct (session_get env (page_url page)) as [[|a s]|e] eqn:Hget; try done.
    apply list_elem_of_In, list_elem_of_singleton in Hin as ->.
    split; [done|]. exists page. apply list_elem_of_In in Hp.
    split; [by apply (visited_in_range env)|]. split; [|done].
    change (map page_url ?l) with (page_url <$> l). by apply list_elem_of_fmap_2.
  - rewrite length_map. unfold parses. rewrite omap_flat_map.
    rewrite (flat_map_ext _ _ (parses_page_trace env)).
    induction (visited env (range 1 (max_pages + 1))) as [|p l IH]; [done|].
    simpl. rewrite length_app.
    destruct (session_get env (page_url p)) as [[|a s]|e]; simpl; lia.
Qed.

(** ** Extraction of one listing *)






(** The claim that every listing node gets a record whose link is the
    resolved [href] fails: the node below has an anchor with an [href] that
    [urljoin] rejects; the exception is caught in [parse_listing], which
    logs it and returns no record at all. *)
Lemma link_present_but_no_record :
  (∃ x, x ∈ descendants broken_box ∧ has_href x ∧ href x = "http://[broken") ∧
  urljoin sample_env base_url "http://[broken" = ValueError "Invalid IPv6 URL" ∧
  parse_listing sample_env broken_box w0
  = (None, World ∅ [Log ERROR "Error parsing listing: Invalid IPv6 URL"]) ∧
  ¬ (∃ d link, record_of sample_env broken_box = Some d ∧
               dict_get "link" d = Some link).
Proof.
  split; [|split; [|split]].
  - exists (Tag "a" {[ "href" := "http://[broken" ]} [ marked "itemTitle" "Seat cover" ]).
    split; [apply list_elem_of_here|]. split; [|reflexivity].
    eexists _, _. split; [reflexivity|]. by eexists.
  - reflexivity.
  - vm_compute. reflexivity.
  - intros (d & link & Hr & _). vm_compute in Hr. discriminate Hr.
Qed.



(** C8.  Field extraction is a function of the listing element: the record
    [parse_listing] returns, and the events of the call, depend neither on
    the world it runs in (collection so far, log, files) nor on anything of
    the environment but [urljoin].  Two extractions of the same element, in
    one run or in two, give the same record.  A call that returns a record
    has no effect at all; a call that returns none logs one error line, and
    that is its only effect: the files are never touched. *)
Theorem parse_listing_pure env1 env2 e w1 w2 :
  (∀ base url, urljoin env1 base url = urljoin env2 base url) →
  fst (parse_listing env1 e w1) = fst (parse_listing env2 e w2) ∧
  fst (parse_listing env1 e w1) = record_of env1 e ∧
  files (snd (parse_listing env1 e w1)) = files w1 ∧
  trace (snd (parse_listing env1 e w1)) = trace w1 ++ parse_trace env1 e ∧
  parse_trace env1 e = parse_trace env2 e ∧
  (is_Some (record_of env1 e) → snd (parse_listing env1 e w1) = w1) ∧
  (record_of env1 e = None →
     ∃ msg, parse_trace env1 e = [Log ERROR ("Error parsing listing: " +:+ msg)]).
Proof.
  intros Hjoin.
  assert (link_field env1 e = link_field env2 e) as Hlink.
  { unfold link_field. destruct (find e "a" [("href", MatchTrue)]); [|done].
    apply Hjoin. }
  assert (record_of env1 e = record_of env2 e ∧ parse_trace env1 e = parse_trace env2 e)
    as [Hrec Htr].
  { unfold record_of, parse_trace. destruct e as [n a c|s|s]; [|done|done].
    unfold parse_listing. rewrite Hlink. by destruct (link_field env2 (Tag n a c)). }
  rewrite (parse_listing_emits env1 e w1), (parse_listing_emits env2 e w2).
  cbn [fst snd files trace].
  split; [done|]. split; [done|]. split; [done|]. split; [done|]. split; [done|].
  split.
  - intros [d Hd]. apply record_of_shape in Hd as (_ & link & _ & _ & ->).
    apply world_eta.
  - intros Hnone.
    destruct (parse_outcome env1 e) as [(link & _ & _ & Hr & _)|(msg & _ & Ht & Hm)];
      [congruence|].
    destruct e as [n a c|s|s].
    + destruct (Hm I) as (err & _ & ->). by exists err.
    + by eexists.
    + by eexists.
Qed.

Lemma parse_listing_pure_sample :
  fst (parse_listing sample_env cover_box w0)
  = fst (parse_listing barren_env cover_box
           (snd (scrape_listings barren_env 3 w0))).
Proof.
  apply (parse_listing_pure sample_env barren_env cover_box w0
           (snd (scrape_listings barren_env 3 w0))).
  reflexivity.
Defined.

(** ** The title filter *)

Lemma contribution_app env l1 l2 :
  contribution env (l1 ++ l2) = contribution env l1 ++ contribution env l2.
Proof. apply omap_app. Qed.

Lemma contribution_cons env e l :
  contribution env (e :: l)
  = match (if keep (record_of env e) then record_of env e else None) with
    | Some d => d :: contribution env l
    | None => contribution env l
    end.
Proof. reflexivity. Qed.

(** C10.  A listing element whose title element is there and reads exactly
    "N/A" once trimmed gets the same title field as an element that has no
    title element, and the filter drops it: the record extracted from it,
    when there is one, has the title "N/A" and is in the collection of no
    run, and the inner loop goes through the element without adding
    anything to the collection. *)
Theorem genuine_NA_title_excluded env e elem :
  find e "span" [("data-aut-id", MatchString "itemTitle")] = Some elem →
  get_text_strip elem = NA →
  text_field e "itemTitle" = NA ∧
  (∀ e', find e' "span" [("data-aut-id", MatchString "itemTitle")] = None →
         text_field e' "itemTitle" = text_field e "itemTitle") ∧
  keep (record_of env e) = false ∧
  (∀ d, record_of env e = Some d →
     dict_get "title" d = Some NA ∧
     ∀ max_pages w, d ∉ fst (scrape_listings env max_pages w)) ∧
  ∀ before after all_listings,
    emits (parse_all env (before ++ e :: after) all_listings)
          (all_listings ++ contribution env before ++ contribution env after)
          (flat_map (parse_trace env) (before ++ e :: after)).
Proof.
  intros Hf Ht.
  assert (text_field e "itemTitle" = NA) as Htitle.
  { unfold text_field. by rewrite Hf. }
  assert (keep (record_of env e) = false) as Hkeep.
  { rewrite keep_record. destruct (record_of env e); [|done].
    unfold title_extractable. by rewrite Htitle. }
  split; [done|]. split; [|split; [done|split]].
  - intros e' Hf'. rewrite Htitle. unfold text_field. by rewrite Hf'.
  - intros d Hd. apply record_of_shape in Hd as (_ & link & _ & -> & _).
    split; [simpl; by rewrite Htitle|].
    intros max_pages w Hin. apply scrape_listings_valid in Hin.
    apply Hin. unfold subscript. simpl. by rewrite Htitle.
  - intros before after acc.
    assert (contribution env (before ++ e :: after)
            = contribution env before ++ contribution env after) as <-.
    { by rewrite contribution_app, contribution_cons, Hkeep. }
    apply parse_all_emits.
Qed.

Lemma genuine_NA_title_excluded_sample :
  keep (record_of sample_env nbsp_card) = false.
Proof.
  apply (genuine_NA_title_excluded sample_env nbsp_card
           (marked "itemTitle" (nbsp +:+ "N/A" +:+ nbsp))).
  - vm_compute. reflexivity.
  - vm_compute. reflexivity.
Defined.

(** The claim that a page adds as many records as it has candidates with a
    title that is not "N/A" fails: the only candidate of the page below has
    the title "Seat cover", and the page adds no record, because [urljoin]
    rejects the [href] of the candidate and the extraction returns
    nothing. *)
Lemma titled_candidate_dropped :
  candidates broken_env 1 = Some [broken_box] ∧
  text_field broken_box "itemTitle" = "Seat cover" ∧
  List.length (List.filter title_extractable [broken_box]) = 1%nat ∧
  fst (scrape_page broken_env 1 [] w0) = (Next, []) ∧
  ¬ (List.length (page_records broken_env 1)
     = List.length (List.filter title_extractable [broken_box])).
Proof.
  split; [|split; [|split; [|split]]]; try (vm_compute; reflexivity).
  intros H. vm_compute in H. discriminate H.
Qed.



(** ** The errors of a run *)

Lemma logged_parse_trace env e :
  is_tag e →
  logged ERROR (parse_trace env e)
  = match link_field env e with
    | Url _ => []
    | ValueError err => ["Error parsing listing: " +:+ err]
    end.
Proof.
  intros He.
  destruct (parse_outcome env e) as [(link & _ & -> & _ & ->)|(msg & _ & -> & Hm)].
  - done.
  - destruct (Hm He) as (err & -> & ->). done.
Qed.

Lemma errors_page_trace env page :
  logged ERROR (page_trace env page)
  = match session_get env (page_url page) with
    | RequestException e => ["Error fetching " +:+ page_url page +:+ ": " +:+ e]
    | Content _ =>
        flat_map (λ e, logged ERROR (parse_trace env e))
                 (default [] (candidates env page))
    end.
Proof.
  unfold page_trace, candidates.
  destruct (session_get env (page_url page)) as [[|a s]|e]; try done.
  destruct (discover (html_parser env (String a s))) as [|x l]; [done|].
  change (logged ERROR (?a :: ?b :: ?c :: ?d :: ?t)) with (logged ERROR t).
  rewrite logged_app. change (logged ERROR [Sleep 2]) with (@nil string).
  rewrite app_nil_r. unfold logged. by rewrite omap_flat_map.
Qed.

(** X7.  The errors a run logs are of two kinds, and every one of them is
    logged: the failed fetch of a page it asked for, with the address and
    the text of the exception; and, for a candidate node of a page it went
    through whose [href] is rejected by [urljoin], "Error parsing listing"
    with the text of that exception. *)
Theorem run_errors_are_fetch_or_link_errors env (max_pages : Z) :
  ∃ listings t,
    emits (scrape_listings env max_pages) listings t ∧
    ∀ msg, msg ∈ logged ERROR t ↔
      (∃ page e, page ∈ visited env (range 1 (max_pages + 1)) ∧
         session_get env (page_url page) = RequestException e ∧
         msg = "Error fetching " +:+ page_url page +:+ ": " +:+ e) ∨
      (∃ page listings el err, page ∈ visited env (range 1 (max_pages + 1)) ∧
         candidates env page = Some listings ∧ el ∈ listings ∧
         link_field env el = ValueError err ∧
         msg = "Error parsing listing: " +:+ err).
Proof.
  eexists _, _. split; [apply scrape_listings_trace|].
  intros msg. unfold logged at 1. rewrite omap_flat_map.
  rewrite (flat_map_ext _ _ (errors_page_trace env)).
  rewrite list_elem_of_In, in_flat_map. split.
  - intros (page & Hp%list_elem_of_In & Hin).
    destruct (session_get env (page_url page)) as [c|e] eqn:Hget.
    + right. destruct (candidates env page) as [listings|] eqn:Hc; [|done].
      cbn [default] in Hin. apply in_flat_map in Hin as (el & Hel%list_elem_of_In & Hin).
      pose proof (candidates_tags env page listings Hc) as Htags.
      eapply Forall_forall in Htags; [|exact Hel].
      rewrite (logged_parse_trace env el Htags) in Hin.
      destruct (link_field env el) as [link|err] eqn:Hl; [done|].
      apply list_elem_of_In, list_elem_of_singleton in Hin as ->.
      by exists page, listings, el, err.
    + left. apply list_elem_of_In, list_elem_of_singleton in Hin as ->.
      by exists page, e.
  - intros [(page & e & Hp & Hget & ->)|(page & listings & el & err & Hp & Hc & Hel & Hl & ->)].
    + exists page. split; [by apply list_elem_of_In|]. rewrite Hget.
      apply list_elem_of_In, list_elem_of_here.
    + exists page. split; [by apply list_elem_of_In|].
      pose proof (candidates_tags env page listings Hc) as Htags.
      eapply Forall_forall in Htags; [|exact Hel].
      unfold candidates in Hc.
      destruct (session_get env (page_url page)) as [c|e] eqn:Hget; [|done].
      assert (candidates env page = Some listings) as ->.
      { unfold candidates. by rewrite Hget. }
      cbn [default]. apply in_flat_map. exists el.
      split; [by apply list_elem_of_In|].
      rewrite (logged_parse_trace env el Htags), Hl.
      apply list_elem_of_In, list_elem_of_here.
Qed.



(** ** Saving the collection *)

Lemma effect_of_emits {A} (m : M A) a t : emits m a t → effect m a id t.
Proof. intros H w. apply H. Qed.

Lemma effect_bind {A B} (m : M A) (k : A → M B) a b u u' t t' :
  effect m a u t → effect (k a) b u' t' → effect (bind m k) b (u' ∘ u) (t ++ t').
Proof.
  intros Hm Hk w. unfold bind. rewrite Hm, Hk. simpl. by rewrite app_assoc.
Qed.

Lemma effect_write filename data :
  effect (write filename data) tt (insert filename data) [WriteFile filename].
Proof. by intros w. Qed.

Lemma effect_write_log filename data lvl msg :
  effect (bind (write filename data) (λ _, log lvl msg)) tt
         (insert filename data) [WriteFile filename; Log lvl msg].
Proof. intros w. unfold bind, write, log, emit. simpl. by rewrite <- app_assoc. Qed.

Lemma only_touches_id names : only_touches names id.
Proof. by intros fs g _. Qed.

Lemma only_touches_insert names filename data :
  filename ∈ names → only_touches names (insert filename data).
Proof.
  intros Hin fs g Hg. apply lookup_insert_ne. intros ->. done.
Qed.

Lemma only_touches_compose names u u' :
  only_touches names u → only_touches names u' → only_touches names (u' ∘ u).
Proof. intros H H' fs g Hg. simpl. by rewrite H', H. Qed.

Lemma only_touches_mono names names' u :
  (∀ x, x ∈ names → x ∈ names') → only_touches names u → only_touches names' u.
Proof. intros Hsub H fs g Hg. apply H. intros Hin. by apply Hg, Hsub. Qed.

Lemma prefix_append (p s : string) : String.prefix p (p +:+ s) = true.
Proof.
  induction p as [|a p IH].
  - by destruct s.
  - rewrite app_cons. simpl. by destruct (ascii_dec a a).
Qed.

Lemma saved_line (n : nat) filename :
  save_line ("Saved " +:+ pretty n +:+ " listings to " +:+ filename) = true.
Proof. unfold save_line. by rewrite prefix_append. Qed.

Lemma json_error_line e : save_line ("Error saving to JSON: " +:+ e) = true.
Proof.
  unfold save_line.
  change ("Error saving to JSON: " +:+ e) with ("Error saving to " +:+ ("JSON: " +:+ e)).
  rewrite prefix_append. by rewrite orb_true_r.
Qed.

Lemma csv_error_line e : save_line ("Error saving to CSV: " +:+ e) = true.
Proof.
  unfold save_line.
  change ("Error saving to CSV: " +:+ e) with ("Error saving to " +:+ ("CSV: " +:+ e)).
  rewrite prefix_append. by rewrite orb_true_r.
Qed.

(** *** What can be encoded *)

Lemma record_encodable_cons k v (d : dict) :
  record_encodable ((k, v) :: d) = encodable k && encodable v && record_encodable d.
Proof. reflexivity. Qed.

Lemma record_encodable_app (d1 d2 : dict) :
  record_encodable (d1 ++ d2) = record_encodable d1 && record_encodable d2.
Proof. apply forallb_app. Qed.

Lemma cut_members_None (d written : dict) :
  cut_members d written = None ↔ record_encodable d = true.
Proof.
  revert written. induction d as [|[k v] d IH]; intros written; [done|].
  rewrite record_encodable_cons. simpl.
  destruct (encodable k); simpl; [|done].
  destruct (encodable v); simpl; [|done]. apply IH.
Qed.

Lemma cut_members_Some (d written members : dict) key text :
  cut_members d written = Some (members, key, text) →
  ∃ before k v after,
    d = before ++ (k, v) :: after ∧ members = written ++ before ∧
    record_encodable before = true ∧
    (key = None ∧ text = k ∧ encodable k = false
     ∨ key = Some k ∧ text = v ∧ encodable k = true ∧ encodable v = false).
Proof.
  revert written. induction d as [|[k v] d IH]; intros written; [done|]. simpl.
  destruct (encodable k) eqn:Hk; simpl.
  - destruct (encodable v) eqn:Hv; simpl.
    + intros H. destruct (IH _ H) as (before & k' & v' & after & -> & -> & Hb & Hc).
      exists ((k, v) :: before), k', v', after.
      split; [done|]. split; [by rewrite <- app_assoc|].
      split; [|done]. rewrite record_encodable_cons, Hk, Hv. done.
    + intros [= <- <- <-]. exists [], k, v, d.
      split; [done|]. split; [by rewrite app_nil_r|]. split; [done|]. by right.
  - intros [= <- <- <-]. exists [], k, v, d.
    split; [done|]. split; [by rewrite app_nil_r|]. split; [done|]. by left.
Qed.

Lemma cut_records_None (listings written : list dict) :
  cut_records listings written = None ↔
  Forall (λ d, record_encodable d = true) listings.
Proof.
  revert written. induction listings as [|d l IH]; intros written.
  - split; [constructor|done].
  - simpl. destruct (cut_members d []) as [[[m k] t]|] eqn:E.
    + split; [done|]. intros H%Forall_inv. apply cut_members_None with (written := []) in H.
      congruence.
    + rewrite IH. apply cut_members_None in E. split.
      * intros H. by constructor.
      * intros H. by apply Forall_inv_tail in H.
Qed.

Lemma cut_records_Some (listings written records : list dict) members key text :
  cut_records listings written = Some (records, members, key, text) →
  ∃ before d after,
    listings = before ++ d :: after ∧ records = written ++ before ∧
    Forall (λ d, record_encodable d = true) before ∧
    cut_members d [] = Some (members, key, text).
Proof.
  revert written. induction listings as [|d l IH]; intros written; [done|]. simpl.
  destruct (cut_members d []) as [[[m k] t]|] eqn:E.
  - intros [= <- <- <- <-]. exists [], d, l.
    split; [done|]. split; [by rewrite app_nil_r|]. split; [constructor|done].
  - intros H. destruct (IH _ H) as (before & d' & after & -> & -> & Hb & Hc).
    exists (d :: before), d', after.
    split; [done|]. split; [by rewrite <- app_assoc|]. split; [|done].
    constructor; [|done]. by apply cut_members_None in E.
Qed.




(** *** The CSV rows *)







Lemma writerows_cons env fieldnames d rest :
  writerows env fieldnames (d :: rest)
  = match _dict_to_list env fieldnames d with
    | inl e => ([], Some e)
    | inr row =>
        match writerow env row with
        | inl e => ([], Some e)
        | inr row =>
            let (rows, err) := writerows env fieldnames rest in (row :: rows, err)
        end
    end.
Proof. reflexivity. Qed.



(** The rows written are those of the first records, as many as were
    written; none is missing exactly when no error is raised. *)
Lemma writerows_prefix env fieldnames listings rows err :
  writerows env fieldnames listings = (rows, err) →
  rows = map (λ d, map (λ key, default "" (dict_get key d)) fieldnames)
             (take (List.length rows) listings) ∧
  (List.length rows ≤ List.length listings)%nat ∧
  (err = None ↔ List.length rows = List.length listings).
Proof.
  revert rows err. induction listings as [|d l IH]; intros rows err.
  - intros [= <- <-]. done.
  - rewrite writerows_cons. unfold _dict_to_list, writerow.
    destruct (List.filter _ (keys d)).
    2:{ intros [= <- <-]. simpl. split; [done|]. split; [lia|]. split; [done|lia]. }
    destruct (forallb encodable _).
    2:{ intros [= <- <-]. simpl. split; [done|]. split; [lia|]. split; [done|lia]. }
    destruct (writerows env fieldnames l) as [rows' err'] eqn:E.
    intros [= <- <-]. destruct (IH _ _ eq_refl) as (Hrows & Hlen & Herr).
    simpl. split; [by rewrite <- Hrows|]. split; [lia|].
    rewrite Herr. lia.
Qed.

Section Saves.
Variable env : Env.

Lemma save_to_json_locked listings filename e :
  open_w env filename = Some e →
  emits (save_to_json env listings filename) tt
    [Log ERROR ("Error saving to JSON: " +:+ e)].
Proof. intros H. unfold save_to_json. rewrite H. apply emits_log. Qed.

Lemma save_to_json_ok listings filename :
  open_w env filename = None →
  Forall (λ d, record_encodable d = true) listings →
  effect (save_to_json env listings filename) tt
    (insert filename (JsonText (json_dump listings)))
    [WriteFile filename;
     Log INFO ("Saved " +:+ pretty (List.length listings)
               +:+ " listings to " +:+ filename)].
Proof.
  intros H He. unfold save_to_json. rewrite H.
  apply (cut_records_None listings []) in He. rewrite He.
  apply effect_write_log.
Qed.

Lemma save_to_json_cut listings filename records members key text :
  open_w env filename = None →
  cut_records listings [] = Some (records, members, key, text) →
  effect (save_to_json env listings filename) tt
    (insert filename (JsonCut records members key))
    [WriteFile filename;
     Log ERROR ("Error saving to JSON: " +:+ encode_error env [text])].
Proof.
  intros H Hc. unfold save_to_json. rewrite H, Hc. apply effect_write_log.
Qed.

Lemma save_to_csv_locked first rest filename e :
  open_w env filename = Some e →
  emits (save_to_csv env (first :: rest) filename) tt
    [Log ERROR ("Error saving to CSV: " +:+ e)].
Proof. intros H. unfold save_to_csv. rewrite H. apply emits_log. Qed.

Lemma save_to_csv_header first rest filename :
  open_w env filename = None → forallb encodable (keys first) = false →
  effect (save_to_csv env (first :: rest) filename) tt
    (insert filename (CsvText []))
    [WriteFile filename;
     Log ERROR ("Error saving to CSV: " +:+ encode_error env (keys first))].
Proof.
  intros H Hk. unfold save_to_csv, writerow. cbv zeta. rewrite H, Hk.
  apply effect_write_log.
Qed.

Lemma save_to_csv_ok first rest filename rows err :
  open_w env filename = None → forallb encodable (keys first) = true →
  writerows env (keys first) (first :: rest) = (rows, err) →
  effect (save_to_csv env (first :: rest) filename) tt
    (insert filename (CsvText (keys first :: rows)))
    [WriteFile filename;
     match err with
     | None => Log INFO ("Saved " +:+ pretty (List.length (first :: rest))
                         +:+ " listings to " +:+ filename)
     | Some e => Log ERROR ("Error saving to CSV: " +:+ e)
     end].
Proof.
  intros H Hk Hw. unfold save_to_csv, writerow. cbv zeta. rewrite H, Hk, Hw.
  destruct err; apply effect_write_log.
Qed.

(** A save changes its own file at most, asks for nothing, prints nothing,
    and leaves at least one event, each a write or a log line of its
    own. *)
Lemma save_to_json_frame listings filename :
  ∃ u t, effect (save_to_json env listings filename) tt u t ∧
    (u = id ∨ ∃ data, u = insert filename data) ∧
    (open_w env filename ≠ None → u = id) ∧
    prints t = [] ∧ requests t = [] ∧
    (∀ x, x ∈ writes t → x = filename) ∧
    t ≠ [] ∧ Forall (λ e, save_event e = true) t.
Proof.
  destruct (open_w env filename) as [e|] eqn:Hopen.
  - eexists id, _. split; [apply effect_of_emits, (save_to_json_locked _ _ e Hopen)|].
    split; [by left|]. split; [done|]. split; [done|]. split; [done|].
    split; [intros x Hx; by apply elem_of_nil in Hx|]. split; [done|].
    constructor; [apply json_error_line|constructor].
  - destruct (cut_records listings []) as [[[[records members] key] text]|] eqn:Hc.
    + eexists _, _. split; [by apply save_to_json_cut|].
      split; [right; by eexists|]. split; [done|]. split; [done|]. split; [done|].
      split; [by intros x ->%list_elem_of_singleton|]. split; [done|].
      constructor; [done|]. constructor; [apply json_error_line|constructor].
    + eexists _, _. split; [apply save_to_json_ok; [done|by apply (cut_records_None _ [])]|].
      split; [right; by eexists|]. split; [done|]. split; [done|]. split; [done|].
      split; [by intros x ->%list_elem_of_singleton|]. split; [done|].
      constructor; [done|]. constructor; [apply saved_line|constructor].
Qed.

Lemma save_to_csv_frame listings filename :
  ∃ u t, effect (save_to_csv env listings filename) tt u t ∧
    (u = id ∨ ∃ data, u = insert filename data) ∧
    (open_w env filename ≠ None → u = id) ∧
    prints t = [] ∧ requests t = [] ∧
    (∀ x, x ∈ writes t → x = filename) ∧
    t ≠ [] ∧ Forall (λ e, save_event e = true) t.
Proof.
  destruct listings as [|first rest].
  { eexists id, _. split; [apply effect_of_emits, emits_log|].
    split; [by left|]. split; [done|]. split; [done|]. split; [done|].
    split; [intros x Hx; by apply elem_of_nil in Hx|]. split; [done|].
    constructor; [done|constructor]. }
  destruct (open_w env filename) as [e|] eqn:Hopen.
  { eexists id, _. split; [apply effect_of_emits, (save_to_csv_locked _ _ _ e Hopen)|].
    split; [by left|]. split; [done|]. split; [done|]. split; [done|].
    split; [intros x Hx; by apply elem_of_nil in Hx|]. split; [done|].
    constructor; [apply csv_error_line|constructor]. }
  destruct (forallb encodable (keys first)) eqn:Hk.
  - destruct (writerows env (keys first) (first :: rest)) as [rows err] eqn:Hw.
    eexists _, _. split; [by eapply save_to_csv_ok|].
    split; [right; by eexists|]. split; [done|].
    split; [by destruct err|]. split; [by destruct err|].
    split; [destruct err; by intros x ->%list_elem_of_singleton|].
    split; [done|]. constructor; [done|].
    constructor; [|constructor]. destruct err; [apply csv_error_line|apply saved_line].
  - eexists _, _. split; [by apply save_to_csv_header|].
    split; [right; by eexists|]. split; [done|]. split; [done|]. split; [done|].
    split; [by intros x ->%list_elem_of_singleton|]. split; [done|].
    constructor; [done|]. constructor; [apply csv_error_line|constructor].
Qed.

End Saves.

Lemma save_to_json_other env listings filename other w :
  other ≠ filename →
  files (snd (save_to_json env listings filename w)) !! other = files w !! other.
Proof.
  intros Hne.
  destruct (save_to_json_frame env listings filename) as (u & t & H & [->|[data ->]] & _).
  - by rewrite H.
  - rewrite H. simpl. by apply lookup_insert_ne.
Qed.

Lemma save_to_csv_other env listings filename other w :
  other ≠ filename →
  files (snd (save_to_csv env listings filename w)) !! other = files w !! other.
Proof.
  intros Hne.
  destruct (save_to_csv_frame env listings filename) as (u & t & H & [->|[data ->]] & _).
  - by rewrite H.
  - rewrite H. simpl. by apply lookup_insert_ne.
Qed.

(** What a save leaves in its file depends on what that file held, and on
    nothing else of the world. *)
Lemma save_to_csv_own env listings filename w1 w2 :
  files w1 !! filename = files w2 !! filename →
  files (snd (save_to_csv env listings filename w1)) !! filename
  = files (snd (save_to_csv env listings filename w2)) !! filename.
Proof.
  intros Heq.
  destruct (save_to_csv_frame env listings filename) as (u & t & H & [->|[data ->]] & _).
  - by rewrite !H.
  - rewrite !H. simpl. by rewrite !lookup_insert_eq.
Qed.

(** X10.  A save changes no file but its own: whatever the collection, and
    whether or not the save succeeds, every other file is left as it was. *)
Theorem saves_touch_only_their_file env (listings : list dict) (filename other : string) w :
  other ≠ filename →
  files (snd (save_to_json env listings filename w)) !! other = files w !! other ∧
  files (snd (save_to_csv env listings filename w)) !! other = files w !! other.
Proof.
  intros Hne. split; [by apply save_to_json_other | by apply save_to_csv_other].
Qed.

Lemma saves_touch_only_their_file_sample :
  files (snd (save_to_json sample_env [] json_file
                (snd (save_to_csv sample_env (contribution sample_env [cover_box])
                        csv_file w0)))) !! csv_file
  = files (snd (save_to_csv sample_env (contribution sample_env [cover_box])
                  csv_file w0)) !! csv_file.
Proof.
  apply (saves_touch_only_their_file sample_env [] json_file csv_file). done.
Defined.

(** X11.  The two saves do not depend on each other: after the JSON save
    followed by the CSV save to another file, each file is what its own
    save alone would have made it.  In particular a JSON file that cannot
    be opened is left as it was and does not keep the CSV file from being
    written, and the other way round. *)
Theorem saves_are_independent env (listings : list dict) (jf cf : string) w :
  jf ≠ cf →
  let w' := snd (save_to_csv env listings cf (snd (save_to_json env listings jf w))) in
  files w' !! jf = files (snd (save_to_json env listings jf w)) !! jf ∧
  files w' !! cf = files (snd (save_to_csv env listings cf w)) !! cf ∧
  (open_w env jf ≠ None → files w' !! jf = files w !! jf) ∧
  (open_w env cf ≠ None → files w' !! cf = files w !! cf).
Proof.
  intros Hne w'. subst w'.
  assert (files (snd (save_to_json env listings jf w)) !! cf = files w !! cf) as Hcf
    by by apply save_to_json_other.
  split; [|split; [|split]].
  - by apply save_to_csv_other.
  - by apply save_to_csv_own.
  - intros Hopen. rewrite save_to_csv_other by done.
    destruct (save_to_json_frame env listings jf) as (u & t & H & _ & Hid & _).
    rewrite H, (Hid Hopen). done.
  - intros Hopen. rewrite <- Hcf.
    destruct (save_to_csv_frame env listings cf) as (u & t & H & _ & Hid & _).
    rewrite H, (Hid Hopen). done.
Qed.

Lemma saves_are_independent_sample :
  let listings := fst (scrape_listings locked_env 3 w0) in
  let w' := snd (save_to_csv locked_env listings csv_file
                   (snd (save_to_json locked_env listings json_file w0))) in
  files w' !! json_file = None ∧
  files w' !! csv_file = files (snd (save_to_csv locked_env listings csv_file w0)) !! csv_file.
Proof.
  intros listings w'.
  destruct (saves_are_independent locked_env listings json_file csv_file w0)
    as (_ & Hcsv & Hjson & _); [done|].
  split; [|exact Hcsv]. subst w'. rewrite Hjson; [done|]. vm_compute. discriminate.
Defined.

(** ** What the files keep of the collection *)

Lemma json_of_record_inj (d1 d2 : dict) :
  json_of_record d1 = json_of_record d2 → d1 = d2.
Proof.
  unfold json_of_record. intros [= H]. revert d2 H.
  induction d1 as [|[k v] d1 IH]; intros [|[k' v'] d2] H; try done.
  simpl in H. inversion H; subst. f_equal. by apply IH.
Qed.

(** X15.  The JSON document loses nothing of the collection: two
    collections that give the same document are the same collection
    (records, their order, and in each record the fields, their order and
    their values). *)
Theorem json_dump_keeps_everything (listings1 listings2 : list dict) :
  json_dump listings1 = json_dump listings2 → listings1 = listings2.
Proof.
  unfold json_dump. intros [= H]. revert listings2 H.
  induction listings1 as [|d1 l1 IH]; intros [|d2 l2] H; try done.
  rewrite !map_cons in H. injection H as H1 H2.
  f_equal; [|by apply IH].
  apply json_of_record_inj. unfold json_of_record. congruence.
Qed.

Lemma json_dump_keeps_everything_sample :
  contribution sample_env [cover_box; na_card] = contribution sample_env [cover_box].
Proof.
  apply (json_dump_keeps_everything
           (contribution sample_env [cover_box; na_card])
           (contribution sample_env [cover_box])).
  vm_compute. reflexivity.
Defined.

(** The claim that the two files always agree fails: the description of the
    second record below is a lone surrogate, which UTF-8 cannot encode.
    Both files open; the JSON save raises when it comes to that text and
    leaves a document cut short in the middle of the second object (no
    array); the CSV save raises at the second row and leaves the header
    and one row, for a collection of two records. *)
Lemma surrogate_breaks_consistency :
  let listings := [plain_record; surrogate_record] in
  let w' := snd (save_to_csv sample_env listings csv_file
                   (snd (save_to_json sample_env listings json_file w0))) in
  Forall (λ d, keys d = FIELDS) listings ∧
  open_w sample_env json_file = None ∧ open_w sample_env csv_file = None ∧
  files w' !! json_file
  = Some (JsonCut [plain_record]
            [("title", "Boot cover"); ("price", "Rs 90"); ("location", "Agra");
             ("link", "N/A"); ("date", "Today")]
            (Some "description")) ∧
  files w' !! csv_file = Some (CsvText [FIELDS; row_of plain_record]) ∧
  logged INFO (trace w') = [] ∧
  ¬ (∃ objects rows,
       files w' !! json_file = Some (JsonText (JArray objects)) ∧
       files w' !! csv_file = Some (CsvText (FIELDS :: rows)) ∧
       List.length rows = List.length objects).
Proof.
  intros listings w'.
  split; [repeat constructor|]. split; [reflexivity|]. split; [reflexivity|].
  split; [vm_compute; reflexivity|]. split; [vm_compute; reflexivity|].
  split; [vm_compute; reflexivity|].
  intros (objects & rows & H & _). vm_compute in H. discriminate H.
Qed.







(** X8.  A save logs "Saved ..." only when the whole collection is in its
    file.  The JSON save either logs that line, and the file holds the
    array of all the records; or logs one error and no such line, and then
    the file is as it was (it could not be opened) or holds a document cut
    short inside one of the records (a text of that record cannot be
    encoded).  The CSV save either logs that line, and the file holds the
    header and a row for every record; or logs no such line, and then the
    collection was empty, or an error is logged and the file is as it was
    or holds fewer lines than a header and a row per record make. *)
Theorem saved_line_means_whole_collection env (listings : list dict)
    (filename : string) w :
  (∃ t, trace (snd (save_to_json env listings filename w)) = trace w ++ t ∧
     ((logged INFO t = ["Saved " +:+ pretty (List.length listings)
                        +:+ " listings to " +:+ filename] ∧
       logged ERROR t = [] ∧
       files (snd (save_to_json env listings filename w)) !! filename
       = Some (JsonText (json_dump listings)))
      ∨ (logged INFO t = [] ∧
         ∃ e, logged ERROR t = ["Error saving to JSON: " +:+ e] ∧
           (open_w env filename = Some e ∧
            files (snd (save_to_json env listings filename w)) !! filename
            = files w !! filename
            ∨ ∃ records members k v others after key,
                listings = records ++ (members ++ (k, v) :: others) :: after ∧
                files (snd (save_to_json env listings filename w)) !! filename
                = Some (JsonCut records members key))))) ∧
  (∃ t, trace (snd (save_to_csv env listings filename w)) = trace w ++ t ∧
     ((∃ first rest, listings = first :: rest ∧
         logged INFO t = ["Saved " +:+ pretty (List.length listings)
                          +:+ " listings to " +:+ filename] ∧
         logged ERROR t = [] ∧
         files (snd (save_to_csv env listings filename w)) !! filename
         = Some (CsvText
                   (keys first
                    :: map (λ d, map (λ key, default "" (dict_get key d)) (keys first))
                           listings)))
      ∨ (logged INFO t = [] ∧
         (listings = [] ∧ t = [Log WARNING "No listings to save"] ∧
          files (snd (save_to_csv env listings filename w)) = files w
          ∨ ∃ e, logged ERROR t = ["Error saving to CSV: " +:+ e] ∧
              (open_w env filename = Some e ∧
               files (snd (save_to_csv env listings filename w)) !! filename
               = files w !! filename
               ∨ ∃ lines,
                   files (snd (save_to_csv env listings filename w)) !! filename
                   = Some (CsvText lines) ∧
                   (List.length lines ≤ List.length listings)%nat))))).
Proof.
  split.
  - destruct (open_w env filename) as [e|] eqn:Hopen.
    { rewrite (save_to_json_locked env listings filename e Hopen w).
      eexists. split; [reflexivity|]. right. split; [done|].
      exists e. split; [done|]. by left. }
    destruct (cut_records listings []) as [[[[records members] key] text]|] eqn:Hc.
    + rewrite (save_to_json_cut env listings filename _ _ _ _ Hopen Hc w).
      eexists. split; [reflexivity|]. right. split; [done|].
      eexists. split; [done|]. right.
      apply cut_records_Some in Hc as (before & d & after & -> & -> & _ & Hm).
      apply cut_members_Some in Hm as (done_ & k & v & others & -> & -> & _ & _).
      exists before, done_, k, v, others, after, key.
      split; [done|]. cbn [snd files]. apply lookup_insert_eq.
    + apply (cut_records_None listings []) in Hc.
      rewrite (save_to_json_ok env listings filename Hopen Hc w).
      eexists. split; [reflexivity|]. left. split; [done|]. split; [done|].
      cbn [snd files]. apply lookup_insert_eq.
  - destruct listings as [|first rest].
    { eexists. split; [reflexivity|]. right. split; [done|]. left. done. }
    destruct (open_w env filename) as [e|] eqn:Hopen.
    { rewrite (save_to_csv_locked env first rest filename e Hopen w).
      eexists. split; [reflexivity|]. right. split; [done|]. right.
      exists e. split; [done|]. by left. }
    destruct (forallb encodable (keys first)) eqn:Hk.
    + destruct (writerows env (keys first) (first :: rest)) as [rows err] eqn:Hw.
      rewrite (save_to_csv_ok env first rest filename rows err Hopen Hk Hw w).
      eexists. split; [reflexivity|].
      destruct (writerows_prefix env _ _ _ _ Hw) as (Hrows & Hlen & Herr).
      destruct err as [e|].
      * right. split; [done|]. right. exists e. split; [done|]. right.
        eexists. split; [cbn [snd files]; apply lookup_insert_eq|].
        assert (List.length rows ≠ List.length (first :: rest)) as Hne.
        { intros H. by apply Herr in H. }
        simpl in *. lia.
      * left. exists first, rest. split; [done|]. split; [done|]. split; [done|].
        cbn [snd files]. rewrite lookup_insert_eq. do 3 f_equal.
        rewrite Hrows at 1. f_equal.
        apply take_ge. rewrite (proj1 Herr eq_refl). done.
    + rewrite (save_to_csv_header env first rest filename Hopen Hk w).
      eexists. split; [reflexivity|]. right. split; [done|]. right.
      eexists. split; [done|]. right.
      eexists. split; [cbn [snd files]; apply lookup_insert_eq|]. simpl. lia.
Qed.

(** ** The entry point *)

Lemma main_unfold env :
  main env =
  bind (log INFO "Starting OLX Car Cover Scraper...")
    (λ _, bind (scrape_listings env 3)
      (λ listings,
         match listings with
         | _ :: _ =>
             bind (log INFO ("Successfully scraped " +:+ pretty (List.length listings)
                             +:+ " listings"))
               (λ _, bind (save_to_json env listings json_file)
                 (λ _, bind (save_to_csv env listings csv_file)
                   (λ _, bind (print_all env
                                 (summary_lines listings
                                  ++ samples_lines 0 (take 3 listings)))
                     (λ raised,
                        match raised with
                        | None => ret tt
                        | Some e => log ERROR ("Error in main execution: " +:+ e)
                        end))))
         | [] => log WARNING "No listings found"
         end)).
Proof. reflexivity. Qed.


Lemma writes_map_Print (lines : list string) : writes (map Print lines) = [].
Proof. by induction lines. Qed.

Lemma requests_map_Print (lines : list string) : requests (map Print lines) = [].
Proof. by induction lines. Qed.

(** The lines are printed up to the first one whose [print] raises. *)
Lemma print_all_emits env (lines : list string) :
  ∃ raised printed rest,
    emits (print_all env lines) raised (map Print printed) ∧
    lines = printed ++ rest ∧
    (∀ line, line ∈ printed → print_error env line = None) ∧
    match raised with
    | None => rest = []
    | Some e => ∃ line rest', rest = line :: rest' ∧ print_error env line = Some e
    end.
Proof.
  induction lines as [|line lines (raised & printed & rest & H & Hl & Hp & Hr)].
  - exists None, [], []. split; [apply emits_ret|]. split; [done|].
    split; [|done]. intros line Hin. by apply elem_of_nil in Hin.
  - simpl. destruct (print_error env line) as [e|] eqn:He.
    + exists (Some e), [], (line :: lines). split; [apply emits_ret|].
      split; [done|]. split; [|by eexists _, _].
      intros l Hin. by apply elem_of_nil in Hin.
    + exists raised, (line :: printed), rest.
      split; [apply (emits_bind _ _ tt _ [Print line]); [apply emits_emit|exact H]|].
      split; [by rewrite Hl|]. split; [|done].
      intros l [->|Hin]%elem_of_cons; auto.
Qed.


(** How [main] goes on a run whose collection is not empty. *)
Lemma main_compose env (listings : list dict) t u1 t1 u2 t2 raised printed :
  emits (scrape_listings env 3) listings t → listings ≠ [] →
  effect (save_to_json env listings json_file) tt u1 t1 →
  effect (save_to_csv env listings csv_file) tt u2 t2 →
  emits (print_all env (summary_lines listings ++ samples_lines 0 (take 3 listings)))
        raised (map Print printed) →
  effect (main env) tt (u2 ∘ u1)
    (([Log INFO "Starting OLX Car Cover Scraper..."] ++ t
      ++ [Log INFO ("Successfully scraped " +:+ pretty (List.length listings)
                    +:+ " listings")]
      ++ t1 ++ t2)
     ++ map Print printed
     ++ match raised with
        | None => []
        | Some e => [Log ERROR ("Error in main execution: " +:+ e)]
        end).
Proof.
  intros Hrun Hne H1 H2 H3 w. rewrite main_unfold. unfold bind at 1 2.
  rewrite (emits_log _ _ w), Hrun. cbn [files trace].
  destruct listings as [|first rest]; [done|].
  unfold bind. rewrite (emits_log _ _ _), H1, H2. cbn [files trace].
  rewrite H3. cbn [files trace].
  destruct raised as [e|].
  - rewrite (emits_log _ _ _). cbn [files trace]. f_equal. f_equal.
    rewrite <- !app_assoc. reflexivity.
  - unfold ret. f_equal. f_equal. rewrite <- !app_assoc, app_nil_r. reflexivity.
Qed.


Lemma parse_trace_no_save env e :
  Forall (λ ev, save_event ev = false) (parse_trace env e).
Proof.
  destruct e as [n a c|s|s].
  - unfold parse_trace. destruct (link_field env (Tag n a c)) as [link|err] eqn:E.
    + rewrite (parse_listing_url env _ _ _ _ E). constructor.
    + rewrite (parse_listing_error env _ _ _ _ E). by repeat constructor.
  - by repeat constructor.
  - by repeat constructor.
Qed.

Lemma page_trace_no_save env page :
  Forall (λ ev, save_event ev = false) (page_trace env page).
Proof.
  unfold page_trace.
  destruct (session_get env (page_url page)) as [[|a s]|e].
  - by repeat constructor.
  - destruct (discover (html_parser env (String a s))) as [|x l].
    + by repeat constructor.
    + do 4 (constructor; [done|]). apply Forall_app. split; [|by repeat constructor].
      apply Forall_forall. intros ev Hev.
      apply list_elem_of_In, in_flat_map in Hev as (el & _ & Hev).
      pose proof (parse_trace_no_save env el) as H.
      eapply Forall_forall in H; [exact H|]. by apply list_elem_of_In.
  - by repeat constructor.
Qed.

Lemma run_trace_no_save env (pages : list Z) :
  Forall (λ ev, save_event ev = false) (flat_map (page_trace env) pages).
Proof.
  apply Forall_forall. intros ev Hev.
  apply list_elem_of_In, in_flat_map in Hev as (page & _ & Hev).
  pose proof (page_trace_no_save env page) as H.
  eapply Forall_forall in H; [exact H|]. by apply list_elem_of_In.
Qed.

(** The claim that an empty run still saves an empty JSON array fails: when
    page 1 has no candidate node, the collection is empty and [main] leaves
    no JSON file behind. *)
Lemma empty_run_writes_no_json :
  ¬ (fst (scrape_listings barren_env 3 w0) = [] →
     files (snd (main barren_env w0)) !! csv_file = None ∧
     files (snd (main barren_env w0)) !! json_file = Some (JsonText (JArray []))).
Proof.
  intros H. destruct (H eq_refl) as [_ Hjson].
  vm_compute in Hjson. discriminate Hjson.
Qed.

(** C1, amended.  When the run produces an empty collection, [main] logs
    the warning "No listings found" and calls neither save: what it does is
    the start line, the events of the run (among them no write), and that
    warning, nothing else; every call of a save leaves a write or a log
    line of its own, and none of these events is one; no file is changed,
    neither the CSV file nor the JSON file.  Called on an empty collection,
    [save_to_csv] logs a warning and writes nothing, and [save_to_json]
    writes an empty array to its file when the file can be opened. *)
Theorem empty_run_saves_nothing env w :
  fst (scrape_listings env 3 w) = [] →
  (∃ t, emits (scrape_listings env 3) [] t ∧
        emits (main env) tt
          ([Log INFO "Starting OLX Car Cover Scraper..."] ++ t
           ++ [Log WARNING "No listings found"]) ∧
        writes t = [] ∧
        Forall (λ ev, save_event ev = false)
          ([Log INFO "Starting OLX Car Cover Scraper..."] ++ t
           ++ [Log WARNING "No listings found"])) ∧
  files (snd (main env w)) = files w ∧
  (∀ listings filename w',
     ∃ t, t ≠ [] ∧ Forall (λ ev, save_event ev = true) t ∧
          trace (snd (save_to_json env listings filename w')) = trace w' ++ t) ∧
  (∀ listings filename w',
     ∃ t, t ≠ [] ∧ Forall (λ ev, save_event ev = true) t ∧
          trace (snd (save_to_csv env listings filename w')) = trace w' ++ t) ∧
  (∀ filename, emits (save_to_csv env [] filename) tt [Log WARNING "No listings to save"]) ∧
  (∀ filename w', open_w env filename = None →
     files (snd (save_to_json env [] filename w')) !! filename =
     Some (JsonText (JArray []))).
Proof.
  intros Hempty.
  pose proof (scrape_listings_trace env 3) as H.
  rewrite (H w) in Hempty. cbn [fst] in Hempty. rewrite Hempty in H.
  set (t := flat_map (page_trace env) (visited env (range 1 (3 + 1)))) in *.
  assert (emits (main env) tt
            ([Log INFO "Starting OLX Car Cover Scraper..."] ++ t
             ++ [Log WARNING "No listings found"])) as Hmain.
  { rewrite main_unfold.
    eapply emits_bind; [apply emits_log|].
    eapply emits_bind; [apply H|]. apply emits_log. }
  split; [|split; [|split; [|split; [|split]]]].
  - exists t. split; [exact H|]. split; [exact Hmain|].
    split; [apply run_trace_quiet|].
    constructor; [done|]. apply Forall_app. split; [apply run_trace_no_save|].
    by repeat constructor.
  - by rewrite Hmain.
  - intros listings filename w'.
    destruct (save_to_json_frame env listings filename)
      as (u & t' & H' & _ & _ & _ & _ & _ & Hne & Hall).
    exists t'. split; [done|]. split; [done|]. by rewrite H'.
  - intros listings filename w'.
    destruct (save_to_csv_frame env listings filename)
      as (u & t' & H' & _ & _ & _ & _ & _ & Hne & Hall).
    exists t'. split; [done|]. split; [done|]. by rewrite H'.
  - intros filename. apply emits_log.
  - intros filename w' Hopen.
    rewrite (save_to_json_ok env [] filename Hopen ltac:(constructor) w').
    cbn [snd files]. apply lookup_insert_eq.
Qed.

Lemma empty_run_saves_nothing_sample :
  files (snd (main barren_env w0)) = ∅.
Proof.
  apply (empty_run_saves_nothing barren_env w0). vm_compute. reflexivity.
Defined.

(** X12.  [main] changes no file but [olx_car_covers.json] and
    [olx_car_covers.csv], whatever the pages answer and whether or not the
    files can be opened; it asks for at most three pages. *)
Theorem main_touches_only_its_outputs env :
  ∃ upd t,
    effect (main env) tt upd t ∧
    only_touches [json_file; csv_file] upd ∧
    (∀ x, x ∈ writes t → x = json_file ∨ x = csv_file) ∧
    (List.length (requests t) ≤ 3)%nat.
Proof.
  pose proof (scrape_listings_trace env 3) as Hrun.
  set (pages := visited env (range 1 (3 + 1))) in *.
  set (listings := flat_map (page_records env) pages) in *.
  assert (List.length (requests (flat_map (page_trace env) pages)) ≤ 3)%nat as Hreq.
  { rewrite run_trace_requests, length_map.
    exact (prefix_length _ _ (visited_prefix env (range 1 (3 + 1)))). }
  destruct (run_trace_quiet env pages) as [Hp Hw].
  destruct (decide (listings = [])) as [Hempty|Hne].
  - exists id. eexists. split; [|split; [apply only_touches_id|split]].
    + apply effect_of_emits. rewrite main_unfold.
      eapply emits_bind; [apply emits_log|].
      eapply emits_bind; [apply Hrun|]. rewrite Hempty. apply emits_log.
    + rewrite !writes_app, Hw. intros x Hx. by apply elem_of_nil in Hx.
    + rewrite !requests_app, app_nil_r. exact Hreq.
  - destruct (save_to_json_frame env listings json_file)
      as (u1 & t1 & H1 & F1 & _ & _ & R1 & W1 & _).
    destruct (save_to_csv_frame env listings csv_file)
      as (u2 & t2 & H2 & F2 & _ & _ & R2 & W2 & _).
    destruct (print_all_emits env
                (summary_lines listings ++ samples_lines 0 (take 3 listings)))
      as (raised & printed & rest & H3 & _).
    eexists _, _. split; [by eapply main_compose|]. split; [|split].
    + apply only_touches_compose.
      * destruct F1 as [->|[data ->]]; [apply only_touches_id|].
        apply only_touches_insert, list_elem_of_here.
      * destruct F2 as [->|[data ->]]; [apply only_touches_id|].
        apply only_touches_insert, list_elem_of_further, list_elem_of_here.
    + rewrite !writes_app, Hw, writes_map_Print.
      assert (writes match raised with
                     | Some e => [Log ERROR ("Error in main execution: " +:+ e)]
                     | None => []
                     end = []) as -> by by destruct raised.
      simpl. rewrite !app_nil_r.
      intros x [Hx|Hx]%elem_of_app; [left; by apply W1 | right; by apply W2].
    + rewrite !requests_app, R1, R2, requests_map_Print.
      assert (requests match raised with
                       | Some e => [Log ERROR ("Error in main execution: " +:+ e)]
                       | None => []
                       end = []) as -> by by destruct raised.
      simpl. rewrite !app_nil_r. exact Hreq.
Qed.



